(** * Well-log viewer: curve-to-plot transformation and axis-range cache

    A shallow embedding of the plotting logic of [src/App.tsx]: the
    per-curve axis-range cache ([axisRangesRef]), the trace assembly
    handed to [Plotly.newPlot], the y-axis layout, the cleaned-curve
    overlay, and the handlers that change the curve selection, the
    selected well and the loaded samples.

    Numbers arrive as JSON, so they are finite doubles; the code only
    compares them ([Math.min], [Math.max], [Array.prototype.includes])
    and never computes with them.  They are modelled as canonical
    rationals [Qc], which contain every finite double and have Leibniz
    equality.  Objects used as dictionaries are [gmap string _]; where
    the iteration order of an object matters ([Object.entries]) the
    object is the list of its entries in that order. *)

From Stdlib Require Import QArith Qcanon.
From stdpp Require Import gmap strings list fin_maps numbers pretty.

Close Scope Q_scope.
Close Scope Qc_scope.

(** ** JSON values *)

(** What a property read can yield.  [JObject] stands for any array or
    object; [JUndefined] is the result of reading a missing property. *)
Inductive jsval :=
  | JUndefined
  | JNull
  | JBool (b : bool)
  | JNum (n : Qc)
  | JStr (s : string)
  | JObject.

(** [typeof v === "number"] *)
Definition is_number (v : jsval) : bool :=
  match v with JNum _ => true | _ => false end.

Definition as_number (v : jsval) : option Qc :=
  match v with JNum n => Some n | _ => None end.

(** ** Curve samples *)

Module Sample.
(** One element of [data]: [{ depth, values }]; [values] may be missing. *)
Record t := mk { depth : Qc; values : option (gmap string jsval) }.
End Sample.

(** [d.values?.[curve]] *)
Definition valueOf (curve : string) (d : Sample.t) : jsval :=
  match Sample.values d with
  | Some vs => default JUndefined (vs !! curve)
  | None => JUndefined
  end.

(** ** Axis-range cache (App.tsx, lines 178-191) *)

Definition Qc_min (a b : Qc) : Qc := if decide (a ≤ b)%Qc then a else b.
Definition Qc_max (a b : Qc) : Qc := if decide (a ≤ b)%Qc then b else a.

(** [Math.min(v, ...vs)] and [Math.max(v, ...vs)] on at least one argument. *)
Definition Math_min (v : Qc) (vs : list Qc) : Qc := foldl Qc_min v vs.
Definition Math_max (v : Qc) (vs : list Qc) : Qc := foldl Qc_max v vs.

(** [data.map(d => d.values?.[curve]).filter(v => typeof v === "number")] *)
Definition numericValues (curve : string) (data : list Sample.t) : list Qc :=
  omap as_number (valueOf curve <$> data).

(** The cache is the object literal [{}] of line 8: next to its own
    entries, which the map holds, a read finds the members it inherits
    from [Object.prototype]. *)
Definition objectPrototypeMembers : list string :=
  ["constructor"; "hasOwnProperty"; "isPrototypeOf"; "propertyIsEnumerable";
   "toLocaleString"; "toString"; "valueOf"; "__proto__";
   "__defineGetter__"; "__defineSetter__"; "__lookupGetter__";
   "__lookupSetter__"].

Definition inherited (name : string) : bool :=
  bool_decide (name ∈ objectPrototypeMembers).

(** What a read of the cache yields: nothing, a stored pair, or the
    inherited member of that name (a function, or the prototype itself
    for [__proto__]). *)
Inductive rangeValue :=
  | RangeUndefined
  | RangePair (r : Qc * Qc)
  | RangeInherited (name : string).

(** [axisRangesRef.current[curve]] *)
Definition readRange (axisRanges : gmap string (Qc * Qc)) (curve : string)
    : rangeValue :=
  match axisRanges !! curve with
  | Some r => RangePair r
  | None => if inherited curve then RangeInherited curve else RangeUndefined
  end.

(** The body of the first [selectedCurves.forEach]: when the read of the
    cache is truthy (a stored pair, but also an inherited member) the
    curve is left alone; otherwise the batch is scanned and the range
    stored when the batch has a number for the curve. *)
Definition persistAxisRange (curve : string) (data : list Sample.t)
    (axisRanges : gmap string (Qc * Qc)) : gmap string (Qc * Qc) :=
  match readRange axisRanges curve with
  | RangePair _ | RangeInherited _ => axisRanges
  | RangeUndefined =>
      match numericValues curve data with
      | [] => axisRanges
      | v :: vs => <[curve := (Math_min v vs, Math_max v vs)]> axisRanges
      end
  end.

(** The whole loop over the selection. *)
Definition persistAxisRanges (selectedCurves : list string)
    (data : list Sample.t) (axisRanges : gmap string (Qc * Qc))
    : gmap string (Qc * Qc) :=
  foldl (λ ranges curve, persistAxisRange curve data ranges)
        axisRanges selectedCurves.

(** ** Interpretation result *)

Module Stats.
(** An entry of [interpretation.stats]; only [spikeDepths] is read by
    the plotting code. *)
Record t := mk { spikeDepths : option (list Qc) }.
End Stats.

Module Cleaned.
(** An entry of [interpretation.cleanedCurves]: [{ depths, values }],
    each of which may be missing. *)
Record t := mk { depths : option (list Qc); values : option (list jsval) }.
End Cleaned.

Module Interp.
(** [cleanedCurves] is kept as its [Object.entries] sequence. *)
Record t := mk {
  stats : option (gmap string Stats.t);
  cleanedCurves : option (list (string * Cleaned.t));
  summary : option string
}.
End Interp.

(** [interpretation?.stats?.[curve]?.spikeDepths || []] *)
Definition spikeDepthsOf (interpretation : option Interp.t) (curve : string)
    : list Qc :=
  default []
    (i ← interpretation; s ← Interp.stats i; e ← (s : gmap string Stats.t) !! curve;
     Stats.spikeDepths e).

(** ** Traces (App.tsx, lines 195-238) *)

Inductive Mode := lines | markers.

Global Instance Mode_eq_dec : EqDecision Mode.
Proof. solve_decision. Defined.

Module Marker.
Record t := mk { color : string; size : Z }.
End Marker.

Module Trace.
Record t := mk {
  x : list Qc;
  y : list jsval;
  type : string;
  mode : Mode;
  name : string;
  line : option Z;              (* line: { width } *)
  marker : option Marker.t;
  yaxis : option string
}.
End Trace.

(** [index === 0 ? "y" : `y${index + 1}`] *)
Definition yaxisRef (index : nat) : string :=
  if decide (index = 0) then "y" else "y" +:+ pretty (index + 1).

Definition lineTrace (data : list Sample.t) (index : nat) (curve : string)
    : Trace.t :=
  {| Trace.x := Sample.depth <$> data;
     Trace.y := valueOf curve <$> data;
     Trace.type := "scatter";
     Trace.mode := lines;
     Trace.name := curve;
     Trace.line := Some 2%Z;
     Trace.marker := None;
     Trace.yaxis := Some (yaxisRef index) |}.

(** [data.filter(d => spikeDepths.includes(d.depth))] *)
Definition spikePointsOf (spikeDepths : list Qc) (data : list Sample.t)
    : list Sample.t :=
  filter (λ d, Sample.depth d ∈ spikeDepths) data.

Definition markerTrace (spikePoints : list Sample.t) (index : nat)
    (curve : string) : Trace.t :=
  {| Trace.x := Sample.depth <$> spikePoints;
     Trace.y := valueOf curve <$> spikePoints;
     Trace.type := "scatter";
     Trace.mode := markers;
     Trace.name := curve +:+ " Spikes";
     Trace.line := None;
     Trace.marker := Some {| Marker.color := "red"; Marker.size := 8 |};
     Trace.yaxis := Some (yaxisRef index) |}.

(** What one iteration of the second [selectedCurves.forEach] pushes. *)
Definition curveTraces (data : list Sample.t)
    (interpretation : option Interp.t) (index : nat) (curve : string)
    : list Trace.t :=
  let spikeDepths := spikeDepthsOf interpretation curve in
  lineTrace data index curve ::
  (if decide (0 < length spikeDepths)
   then [markerTrace (spikePointsOf spikeDepths data) index curve]
   else []).

(** The immediately invoked function that builds [traces]. *)
Definition assemble (data : list Sample.t) (selectedCurves : list string)
    (interpretation : option Interp.t) : list Trace.t :=
  mjoin (imap (curveTraces data interpretation) selectedCurves).

(** ** Axis layout (App.tsx, lines 262-285) *)

Inductive Side := left_side | right_side.

Module Axis.
Record t := mk {
  title : string;
  showline : bool;
  linewidth : Z;
  linecolor : string;
  mirror : bool;
  showgrid : bool;
  gridcolor : string;
  zeroline : bool;
  tickfont : Z;                 (* tickfont: { size } *)
  overlaying : option string;
  side : option Side;
  autorange : option bool;
  range : rangeValue;
  fixedrange : option bool
}.
End Axis.

(** [index === 0 ? "yaxis" : `yaxis${index + 1}`] *)
Definition axisName (index : nat) : string :=
  if decide (index = 0) then "yaxis" else "yaxis" +:+ pretty (index + 1).

Definition axisConfig (axisRanges : gmap string (Qc * Qc)) (index : nat)
    (curve : string) : Axis.t :=
  {| Axis.title := curve;
     Axis.showline := true;
     Axis.linewidth := 2;
     Axis.linecolor := "#ffffff";
     Axis.mirror := true;
     Axis.showgrid := bool_decide (index = 0);
     Axis.gridcolor := "#333";
     Axis.zeroline := false;
     Axis.tickfont := 12;
     Axis.overlaying := if decide (index = 0) then None else Some "y";
     Axis.side :=
       Some (if decide (index mod 2 = 0) then left_side else right_side);
     Axis.autorange := Some false;
     Axis.range := readRange axisRanges curve;
     Axis.fixedrange := Some true |}.

(** The entries spread into the layout by [Object.fromEntries]. *)
Definition yaxes (selectedCurves : list string)
    (axisRanges : gmap string (Qc * Qc)) : list (string * Axis.t) :=
  imap (λ index curve, (axisName index, axisConfig axisRanges index curve))
       selectedCurves.

(** ** Charts *)

Module Chart.
(** The arguments of one [Plotly.newPlot] call: the traces, the chart
    title, the y-axis entries of the layout and the height. *)
Record t := mk {
  traces : list Trace.t;
  title : string;
  axes : list (string * Axis.t);
  height : Z
}.
End Chart.

(** The effect on [data, selectedCurves, interpretation] (lines 175-299):
    the new contents of [axisRangesRef.current] and the chart handed to
    [Plotly.newPlot], if the call is made. *)
Definition plotEffect (plotMounted : bool) (data : list Sample.t)
    (selectedCurves : list string) (interpretation : option Interp.t)
    (axisRanges : gmap string (Qc * Qc))
    : gmap string (Qc * Qc) * option Chart.t :=
  if negb plotMounted || bool_decide (length data = 0) then (axisRanges, None)
  else
    let axisRanges' := persistAxisRanges selectedCurves data axisRanges in
    (axisRanges',
     Some {| Chart.traces := assemble data selectedCurves interpretation;
             Chart.title := "Well Log Curves vs Depth";
             Chart.axes := yaxes selectedCurves axisRanges';
             Chart.height := 700 |}).

(** ** Cleaned-curve overlay (App.tsx, lines 301-372) *)

(** The guard [!curveData.depths || !curveData.values]: an array, empty
    or not, is truthy, so only a missing field makes the entry skip. *)
Definition cleanedTrace (entry : string * Cleaned.t) : option Trace.t :=
  let '(curveName, curveData) := entry in
  match Cleaned.depths curveData, Cleaned.values curveData with
  | Some depths, Some values =>
      Some {| Trace.x := depths;
              Trace.y := values;
              Trace.type := "scatter";
              Trace.mode := lines;
              Trace.name := curveName +:+ " (Cleaned)";
              Trace.line := Some 2%Z;
              Trace.marker := None;
              Trace.yaxis := None |}
  | _, _ => None
  end.

(** The loop over [Object.entries(cleanedCurves)]. *)
Definition assembleCleaned (cleanedCurves : list (string * Cleaned.t))
    : list Trace.t :=
  omap cleanedTrace cleanedCurves.

Definition cleanedAxis : Axis.t :=
  {| Axis.title := "Cleaned Values";
     Axis.showline := true;
     Axis.linewidth := 2;
     Axis.linecolor := "#ffffff";
     Axis.mirror := true;
     Axis.showgrid := true;
     Axis.gridcolor := "#333";
     Axis.zeroline := false;
     Axis.tickfont := 12;
     Axis.overlaying := None;
     Axis.side := None;
     Axis.autorange := None;
     Axis.range := RangeUndefined;
     Axis.fixedrange := None |}.

(** The effect on [interpretation]: the chart handed to [Plotly.newPlot],
    if the call is made. *)
Definition cleanedEffect (cleanedPlotMounted : bool)
    (interpretation : option Interp.t) : option Chart.t :=
  if negb cleanedPlotMounted then None
  else
    match interpretation ≫= Interp.cleanedCurves with
    | None => None
    | Some cleanedCurves =>
        let traces := assembleCleaned cleanedCurves in
        if decide (length traces = 0) then None
        else Some {| Chart.traces := traces;
                     Chart.title := "AI Cleaned Curve (Outliers Removed)";
                     Chart.axes := [("yaxis", cleanedAxis)];
                     Chart.height := 500 |}
    end.

(** ** Component state and handlers *)

Module App.
(** The state of the component that the plotting logic reads: the
    [useState] cells and the contents of [axisRangesRef]. *)
Record t := mk {
  selectedWell : string;
  curves : list string;
  selectedCurves : list string;
  data : list Sample.t;
  interpretation : option Interp.t;
  showAI : bool;
  axisRanges : gmap string (Qc * Qc)
}.
End App.

(** The state on mount. *)
Definition initial : App.t :=
  {| App.selectedWell := "";
     App.curves := [];
     App.selectedCurves := [];
     App.data := [];
     App.interpretation := None;
     App.showAI := false;
     App.axisRanges := ∅ |}.

Definition setSelectedWell (w : string) (st : App.t) : App.t :=
  {| App.selectedWell := w;
     App.curves := App.curves st;
     App.selectedCurves := App.selectedCurves st;
     App.data := App.data st;
     App.interpretation := App.interpretation st;
     App.showAI := App.showAI st;
     App.axisRanges := App.axisRanges st |}.

Definition setCurves (cs : list string) (st : App.t) : App.t :=
  {| App.selectedWell := App.selectedWell st;
     App.curves := cs;
     App.selectedCurves := App.selectedCurves st;
     App.data := App.data st;
     App.interpretation := App.interpretation st;
     App.showAI := App.showAI st;
     App.axisRanges := App.axisRanges st |}.

Definition setSelectedCurves (sel : list string) (st : App.t) : App.t :=
  {| App.selectedWell := App.selectedWell st;
     App.curves := App.curves st;
     App.selectedCurves := sel;
     App.data := App.data st;
     App.interpretation := App.interpretation st;
     App.showAI := App.showAI st;
     App.axisRanges := App.axisRanges st |}.

Definition setData (d : list Sample.t) (st : App.t) : App.t :=
  {| App.selectedWell := App.selectedWell st;
     App.curves := App.curves st;
     App.selectedCurves := App.selectedCurves st;
     App.data := d;
     App.interpretation := App.interpretation st;
     App.showAI := App.showAI st;
     App.axisRanges := App.axisRanges st |}.

Definition setInterpretation (i : Interp.t) (st : App.t) : App.t :=
  {| App.selectedWell := App.selectedWell st;
     App.curves := App.curves st;
     App.selectedCurves := App.selectedCurves st;
     App.data := App.data st;
     App.interpretation := Some i;
     App.showAI := App.showAI st;
     App.axisRanges := App.axisRanges st |}.

Definition setShowAI (b : bool) (st : App.t) : App.t :=
  {| App.selectedWell := App.selectedWell st;
     App.curves := App.curves st;
     App.selectedCurves := App.selectedCurves st;
     App.data := App.data st;
     App.interpretation := App.interpretation st;
     App.showAI := b;
     App.axisRanges := App.axisRanges st |}.

Definition setAxisRanges (m : gmap string (Qc * Qc)) (st : App.t) : App.t :=
  {| App.selectedWell := App.selectedWell st;
     App.curves := App.curves st;
     App.selectedCurves := App.selectedCurves st;
     App.data := App.data st;
     App.interpretation := App.interpretation st;
     App.showAI := App.showAI st;
     App.axisRanges := m |}.

(** The [.then] callback of the curve request (lines 47-60); [res] is
    the list of curve names of the response. *)
Definition curvesLoaded (res : list string) (st : App.t) : App.t :=
  let filteredCurves := filter (λ c, c ≠ "Depth" ∧ c ≠ "Time") res in
  let st := setCurves filteredCurves st in
  match filteredCurves with
  | c :: _ => setSelectedCurves [c] st
  | [] => setSelectedCurves [] st
  end.

(** The checkbox's [onChange] (lines 444-451) as a function of the
    selection. *)
Definition onChange (checked : bool) (name : string)
    (selectedCurves : list string) : list string :=
  if checked then
    if decide (3 ≤ length selectedCurves) then selectedCurves
    else selectedCurves ++ [name]
  else filter (λ curve, curve ≠ name) selectedCurves.

(** A click on the checkbox of [name]: the box is controlled by
    [selectedCurves.includes(name)], so the click reports the opposite. *)
Definition toggle (name : string) (selectedCurves : list string)
    : list string :=
  onChange (negb (bool_decide (name ∈ selectedCurves))) name selectedCurves.

(** [fetchData] (lines 64-82) with a successful response [res]. *)
Definition fetchData (res : list Sample.t) (st : App.t) : App.t :=
  if decide (App.selectedWell st = "" ∨ length (App.selectedCurves st) = 0)
  then st
  else setData res st.

(** [runAIInterpretation] (lines 84-103) with a successful response. *)
Definition runAIInterpretation (res : Interp.t) (st : App.t) : App.t :=
  if decide (App.selectedWell st = "" ∨ length (App.selectedCurves st) = 0)
  then st
  else setShowAI true (setInterpretation res st).

(** [handleDeleteWell] (lines 158-173), confirmed and successful. *)
Definition handleDeleteWell (wellId : string) (st : App.t) : App.t :=
  if decide (App.selectedWell st = wellId)
  then setData [] (setCurves [] (setSelectedWell "" st))
  else st.

Inductive Event :=
  | SelectWell (w : string)
  | CurvesLoaded (res : list string)
  | ToggleCurve (name : string)
  | DataLoaded (res : list Sample.t)
  | Interpreted (res : Interp.t)
  | DeleteWell (wellId : string).

Definition handle (ev : Event) (st : App.t) : App.t :=
  match ev with
  | SelectWell w => setSelectedWell w st
  | CurvesLoaded res => curvesLoaded res st
  | ToggleCurve name =>
      setSelectedCurves (toggle name (App.selectedCurves st)) st
  | DataLoaded res => fetchData res st
  | Interpreted res => runAIInterpretation res st
  | DeleteWell wellId => handleDeleteWell wellId st
  end.

(** The plot container is rendered unconditionally (line 493), so the
    plot effect always finds it. *)
Definition runPlotEffect (st : App.t) : App.t * option Chart.t :=
  let '(ranges, chart) :=
    plotEffect true (App.data st) (App.selectedCurves st)
               (App.interpretation st) (App.axisRanges st) in
  (setAxisRanges ranges st, chart).

(** The cleaned-plot container is rendered under
    [showAI && interpretation?.cleanedCurves] (line 495). *)
Definition cleanedPlotMounted (st : App.t) : bool :=
  App.showAI st
  && bool_decide (is_Some (App.interpretation st ≫= Interp.cleanedCurves)).

Definition runCleanedEffect (st : App.t) : option Chart.t :=
  cleanedEffect (cleanedPlotMounted st) (App.interpretation st).

(** Whether the handler calls [setData], [setSelectedCurves] or
    [setInterpretation], which makes the plot effect run after it. *)
Definition plotDepsSet (ev : Event) (st : App.t) : bool :=
  match ev with
  | SelectWell _ => false
  | CurvesLoaded _ => true
  | ToggleCurve name =>
      bool_decide (name ∈ App.selectedCurves st)
      || negb (bool_decide (3 ≤ length (App.selectedCurves st)))
  | DataLoaded _ | Interpreted _ =>
      negb (bool_decide (App.selectedWell st = ""
                         ∨ length (App.selectedCurves st) = 0))
  | DeleteWell wellId => bool_decide (App.selectedWell st = wellId)
  end.

(** One event: the handler, then the plot effect if it is scheduled. *)
Definition step (st : App.t) (ev : Event) : App.t :=
  if plotDepsSet ev st then (runPlotEffect (handle ev st)).1
  else handle ev st.

Definition run (st : App.t) (evs : list Event) : App.t := foldl step st evs.

(** ** Sample data for the examples *)

Definition num (z : Z) : jsval := JNum (Qc_of_Z z).

Definition sample (depth : Z) (vals : list (string * jsval)) : Sample.t :=
  {| Sample.depth := Qc_of_Z depth; Sample.values := Some (list_to_map vals) |}.

Definition batch_5_15 : list Sample.t :=
  [sample 0 [("GR", num 5)]; sample 1 [("GR", num 15)]].

Definition batch_100 : list Sample.t := [sample 2 [("GR", num 100)]].

Definition batch_gaps : list Sample.t :=
  [sample 0 [("GR", JNull)]; sample 1 [("RHOB", num 2)];
   {| Sample.depth := Qc_of_Z 2; Sample.values := None |}].

(** ** The wording of the specification, and the states of the examples *)

(** The scenario of the specification: the first batch gives GR the range
    [5, 15]; a second batch with the value 100 leaves it there. *)
Definition after_first_batch : App.t :=
  run initial
      [SelectWell "W1"; CurvesLoaded ["Depth"; "GR"]; DataLoaded batch_5_15].

(** The batch has a number for the curve. *)
Definition has_numeric (curve : string) (data : list Sample.t) : Prop :=
  ∃ d n, d ∈ data ∧ valueOf curve d = JNum n.

(** [r] is (minimum, maximum) of the numbers the batch has for the curve. *)
Definition is_range_of (curve : string) (data : list Sample.t)
    (r : Qc * Qc) : Prop :=
  (∃ d, d ∈ data ∧ valueOf curve d = JNum r.1)
  ∧ (∃ d, d ∈ data ∧ valueOf curve d = JNum r.2)
  ∧ ∀ d n, d ∈ data → valueOf curve d = JNum n → (r.1 ≤ n)%Qc ∧ (n ≤ r.2)%Qc.

(** The range-lock policy as the specification words it: a cached range
    locks the axis to it; without one the axis is left to auto-scale. *)
Definition range_lock_policy (selectedCurves : list string)
    (axisRanges : gmap string (Qc * Qc)) : Prop :=
  ∀ i c, selectedCurves !! i = Some c →
    ∃ cfg, yaxes selectedCurves axisRanges !! i = Some (axisName i, cfg)
      ∧ match axisRanges !! c with
        | Some r =>
            Axis.range cfg = RangePair r ∧ Axis.fixedrange cfg = Some true
        | None => Axis.autorange cfg ≠ Some false
        end.

Definition after_select_W2 : App.t := step after_first_batch (SelectWell "W2").

(** Selecting a well, followed by the arrival of its curve list. *)
Definition changeWell (w : string) (res : list string) (st : App.t) : App.t :=
  run st [SelectWell w; CurvesLoaded res].

(** The teardown as the specification words it: after a change of well
    no range cached before it is left. *)
Definition well_change_clears_cache (st : App.t) (w : string)
    (res : list string) : Prop :=
  App.selectedWell st ≠ w →
  ∀ c, is_Some (App.axisRanges st !! c) →
       App.axisRanges (changeWell w res st) !! c = None.

(** The suppression as the specification words it: with an empty
    selection the plot effect makes no render call. *)
Definition empty_selection_suppresses_render (st : App.t) : Prop :=
  App.selectedCurves st = [] →
  assemble (App.data st) (App.selectedCurves st) (App.interpretation st) = []
  ∧ (runPlotEffect st).2 = None.

(** Samples of W1 are loaded; W2 has no selectable curve. *)
Definition after_empty_well : App.t :=
  run after_select_W2 [CurvesLoaded ["Depth"; "Time"]].

Definition selection_invariant (selectedCurves : list string) : Prop :=
  (1 ≤ length selectedCurves ∧ length selectedCurves ≤ 3)
  ∧ NoDup selectedCurves.

(** The invariant as the specification words it: every operation keeps
    between one and three distinct curves selected. *)
Definition selection_invariant_preserved (st : App.t) (ev : Event) : Prop :=
  selection_invariant (App.selectedCurves st) →
  selection_invariant (App.selectedCurves (step st ev)).

Definition three_selected : App.t :=
  run initial
      [SelectWell "W1"; CurvesLoaded ["Depth"; "GR"; "RHOB"; "NPHI"; "DT"];
       ToggleCurve "RHOB"; ToggleCurve "NPHI"].

(** The example of the specification: spike depths 100 and 150 over
    samples at 90, 100, 110, 150 and 200. *)
Definition spike_samples : list Sample.t :=
  [sample 90 [("GR", num 1)]; sample 100 [("GR", num 9)];
   sample 110 [("GR", num 2)]; sample 150 [("GR", num 8)];
   sample 200 [("GR", num 3)]].

Definition spike_interpretation : Interp.t :=
  {| Interp.stats :=
       Some {[ "GR" := {| Stats.spikeDepths :=
                            Some [Qc_of_Z 100; Qc_of_Z 150] |} ]};
     Interp.cleanedCurves := None;
     Interp.summary := None |}.

(** An entry with both fields, empty or not. *)
Definition both_present (entry : string * Cleaned.t) : Prop :=
  is_Some (Cleaned.depths entry.2) ∧ is_Some (Cleaned.values entry.2).

Global Instance both_present_dec entry : Decision (both_present entry).
Proof. unfold both_present. apply _. Defined.

(** An entry with both fields, neither of them empty. *)
Definition both_nonempty (entry : string * Cleaned.t) : Prop :=
  (∃ ds, Cleaned.depths entry.2 = Some ds ∧ ds ≠ [])
  ∧ (∃ vs, Cleaned.values entry.2 = Some vs ∧ vs ≠ []).

Global Instance both_nonempty_dec entry : Decision (both_nonempty entry).
Proof.
  unfold both_nonempty.
  destruct (Cleaned.depths entry.2) as [[|d ds]|],
           (Cleaned.values entry.2) as [[|v vs]|];
    first [ left; split; eexists; (split; [reflexivity|discriminate])
          | right; intros [(? & ? & ?) (? & ? & ?)]; congruence ].
Defined.

Definition cleanedName (entry : string * Cleaned.t) : string :=
  entry.1 +:+ " (Cleaned)".

(** The overlay as the specification words it: one trace per entry whose
    depths and values are both present and non-empty. *)
Definition cleaned_overlay_nonempty_only
    (cleanedCurves : list (string * Cleaned.t)) : Prop :=
  Trace.name <$> assembleCleaned cleanedCurves
  = cleanedName <$> filter both_nonempty cleanedCurves.

Definition empty_cleaned : Interp.t :=
  {| Interp.stats := None;
     Interp.cleanedCurves :=
       Some [("GR", {| Cleaned.depths := Some []; Cleaned.values := Some [] |})];
     Interp.summary := None |}.

(** ** The rest of the component *)

(** *** Depth bounds of the selected well (App.tsx, lines 38-44) *)

(** JavaScript truthiness of a value read from JSON. *)
Definition truthy (v : jsval) : bool :=
  match v with
  | JUndefined | JNull => false
  | JBool b => b
  | JNum n => negb (bool_decide (n = Qc_of_Z 0))
  | JStr s => negb (bool_decide (s = ""))
  | JObject => true
  end.

(** [v || 0] *)
Definition orZero (v : jsval) : jsval :=
  if truthy v then v else JNum (Qc_of_Z 0).

Module Well.
(** An element of [wells], with the fields the component reads. *)
Record t := mk { id : string; start_depth : jsval; stop_depth : jsval }.
End Well.

(** The synchronous part of the effect on [selectedWell, wells]: the
    values of [fromDepth] and [toDepth] after it, given those before. *)
Definition depthBounds (wells : list Well.t) (selectedWell : string)
    (bounds : jsval * jsval) : jsval * jsval :=
  if decide (selectedWell = "") then bounds
  else
    match find (λ w, bool_decide (Well.id w = selectedWell)) wells with
    | Some well =>
        (orZero (Well.start_depth well), orZero (Well.stop_depth well))
    | None => bounds
    end.

(** *** Requests that can fail *)

(** How an awaited request ends. *)
Inductive Outcome (A : Type) :=
  | Resolved (a : A)
  | Rejected.
Arguments Resolved {A} a.
Arguments Rejected {A}.

(** [fetchData] (lines 64-82) with either outcome: the state, the
    [loading] flag and the alert shown, if any. *)
Definition fetchDataWith (outcome : Outcome (list Sample.t)) (st : App.t)
    (loading : bool) : App.t * bool * option string :=
  if decide (App.selectedWell st = "" ∨ length (App.selectedCurves st) = 0)
  then (st, loading, None)
  else
    match outcome with
    | Resolved res => (setData res st, false, None)
    | Rejected => (st, false, Some "Failed to load data or interpretation")
    end.

(** [runAIInterpretation] (lines 84-103) with either outcome. *)
Definition runAIInterpretationWith (outcome : Outcome Interp.t) (st : App.t)
    : App.t * option string :=
  if decide (App.selectedWell st = "" ∨ length (App.selectedCurves st) = 0)
  then (st, None)
  else
    match outcome with
    | Resolved res => (setShowAI true (setInterpretation res st), None)
    | Rejected => (st, Some "AI interpretation failed")
    end.

(** A request followed, inside the same [try], by [loadWells]. *)
Inductive ReloadOutcome :=
  | RequestRejected
  | ReloadRejected
  | Reloaded (wells : list Well.t).

Module Upload.
(** The cells [handleUpload] reads and writes; a file is its name. *)
Record t := mk {
  selectedFile : option string;
  uploading : bool;
  wells : list Well.t
}.
End Upload.

(** [handleUpload] (lines 135-156): the cells after it and the alert. *)
Definition handleUpload (outcome : ReloadOutcome) (u : Upload.t)
    : Upload.t * option string :=
  match Upload.selectedFile u with
  | None => (u, None)
  | Some file =>
      match outcome with
      | RequestRejected =>
          ({| Upload.selectedFile := Some file;
              Upload.uploading := false;
              Upload.wells := Upload.wells u |},
           Some "Upload failed")
      | ReloadRejected =>
          ({| Upload.selectedFile := None;
              Upload.uploading := false;
              Upload.wells := Upload.wells u |},
           Some "Upload failed")
      | Reloaded wells =>
          ({| Upload.selectedFile := None;
              Upload.uploading := false;
              Upload.wells := wells |},
           Some "LAS file uploaded successfully")
      end
  end.

(** [handleDeleteWell] (lines 158-173) with the answer to the
    confirmation and every outcome: the state, the well list and the
    alert. *)
Definition handleDeleteWellWith (confirmed : bool) (outcome : ReloadOutcome)
    (wellId : string) (st : App.t) (wells : list Well.t)
    : App.t * list Well.t * option string :=
  if negb confirmed then (st, wells, None)
  else
    match outcome with
    | RequestRejected => (st, wells, Some "Delete failed")
    | ReloadRejected =>
        (handleDeleteWell wellId st, wells, Some "Delete failed")
    | Reloaded wells' => (handleDeleteWell wellId st, wells', None)
    end.

(** *** Chat (App.tsx, lines 24-26 and 105-133) *)

(** Chat texts are sequences of UTF-16 code units, because [trim] looks
    at their characters. *)
Definition lit (s : string) : list N :=
  (λ a, Ascii.N_of_ascii a) <$> String.list_ascii_of_string s.

(** The white space and line terminators that [String.prototype.trim]
    removes. *)
Definition isWhiteSpace (c : N) : bool :=
  bool_decide (c ∈ [9; 10; 11; 12; 13; 32; 160; 5760; 8232; 8233; 8239;
                    8287; 12288; 65279]%N)
  || (bool_decide (8192 ≤ c)%N && bool_decide (c ≤ 8202)%N).

Fixpoint trimStart (s : list N) : list N :=
  match s with
  | [] => []
  | c :: s' => if isWhiteSpace c then trimStart s' else s
  end.

Definition trim (s : list N) : list N :=
  reverse (trimStart (reverse (trimStart s))).

Inductive Sender := user | bot.

Module ChatMessage.
Record t := mk { sender : Sender; text : list N }.
End ChatMessage.

Module Chat.
Record t := mk {
  chatMessages : list ChatMessage.t;
  chatInput : list N;
  chatLoading : bool
}.
End Chat.

(** [sendChatMessage] up to the [await]: the guard, the user's message
    appended, the input cleared; and the message to send, if any. *)
Definition sendChatRequest (selectedWell : string) (c : Chat.t)
    : Chat.t * option (list N) :=
  if decide (trim (Chat.chatInput c) = [] ∨ selectedWell = "") then (c, None)
  else
    ({| Chat.chatMessages :=
          Chat.chatMessages c
          ++ [{| ChatMessage.sender := user;
                 ChatMessage.text := Chat.chatInput c |}];
        Chat.chatInput := [];
        Chat.chatLoading := true |},
     Some (Chat.chatInput c)).

(** [res.data.reply || "No response"] *)
Definition replyText (reply : option (list N)) : list N :=
  match reply with
  | Some (c :: s) => c :: s
  | _ => lit "No response"
  end.

(** [sendChatMessage] after the [await]: the bot's message appended. *)
Definition sendChatResponse (outcome : Outcome (option (list N)))
    (c : Chat.t) : Chat.t :=
  {| Chat.chatMessages :=
       Chat.chatMessages c
       ++ [{| ChatMessage.sender := bot;
              ChatMessage.text :=
                match outcome with
                | Resolved reply => replyText reply
                | Rejected => lit "Chat processing failed."
                end |}];
     Chat.chatInput := Chat.chatInput c;
     Chat.chatLoading := false |}.

Definition sendChatMessage (selectedWell : string)
    (outcome : Outcome (option (list N))) (c : Chat.t) : Chat.t :=
  match sendChatRequest selectedWell c with
  | (c', Some _) => sendChatResponse outcome c'
  | (c', None) => c'
  end.

(** What can happen to the chat: typing, a send, the end of a request. *)
Inductive ChatEvent :=
  | Typed (text : list N)
  | Sent (selectedWell : string)
  | Answered (outcome : Outcome (option (list N))).

Definition chatStep (c : Chat.t) (ev : ChatEvent) : Chat.t :=
  match ev with
  | Typed text =>
      {| Chat.chatMessages := Chat.chatMessages c;
         Chat.chatInput := text;
         Chat.chatLoading := Chat.chatLoading c |}
  | Sent selectedWell => (sendChatRequest selectedWell c).1
  | Answered outcome => sendChatResponse outcome c
  end.

Definition chatInitial : Chat.t :=
  {| Chat.chatMessages := []; Chat.chatInput := []; Chat.chatLoading := false |}.

(** *** Predicates and states used by the further properties *)

Definition range_ordered (r : Qc * Qc) : Prop := (r.1 ≤ r.2)%Qc.

Definition axisSuffix (index : nat) : string :=
  if decide (index = 0) then "" else pretty (index + 1).

Definition unmatched_interpretation : Interp.t :=
  {| Interp.stats :=
       Some {[ "GR" := {| Stats.spikeDepths := Some [Qc_of_Z 95] |} ]};
     Interp.cleanedCurves := None;
     Interp.summary := None |}.

Definition selection_bounded (selectedCurves : list string) : Prop :=
  length selectedCurves ≤ 3 ∧ NoDup selectedCurves.

Definition typed_hello : Chat.t :=
  {| Chat.chatMessages := [];
     Chat.chatInput := lit " hello ";
     Chat.chatLoading := false |}.

Definition typed_blank : Chat.t :=
  {| Chat.chatMessages := [];
     Chat.chatInput := [32; 9; 160; 8195; 10]%N;
     Chat.chatLoading := false |}.

Definition message_ok (m : ChatMessage.t) : Prop :=
  match ChatMessage.sender m with
  | user => trim (ChatMessage.text m) ≠ []
  | bot => ChatMessage.text m ≠ []
  end.

Definition two_wells : list Well.t :=
  [ {| Well.id := "W1"; Well.start_depth := JNum (Qc_of_Z 0);
       Well.stop_depth := JNum (Qc_of_Z 1200) |};
    {| Well.id := "W2"; Well.start_depth := JUndefined;
       Well.stop_depth := JNull |} ].

Definition file_chosen : Upload.t :=
  {| Upload.selectedFile := Some "well.las";
     Upload.uploading := false;
     Upload.wells := [] |}.




(** A batch with numbers under a name that [Object.prototype] has. *)
Definition batch_constructor : list Sample.t :=
  [sample 0 [("constructor", num 5)]; sample 1 [("constructor", num 15)]].

(** Three wells, two of them with the same id. *)
Definition duplicate_wells : list Well.t :=
  [ {| Well.id := "W0"; Well.start_depth := JNum (Qc_of_Z 1);
       Well.stop_depth := JNum (Qc_of_Z 2) |};
    {| Well.id := "W1"; Well.start_depth := JNum (Qc_of_Z 10);
       Well.stop_depth := JNum (Qc_of_Z 20) |};
    {| Well.id := "W1"; Well.start_depth := JNum (Qc_of_Z 30);
       Well.stop_depth := JNum (Qc_of_Z 40) |} ].

(** * Properties *)

(** ** The scan of a batch *)

(** The projected list is the filtered list of the source. *)
Lemma numericValues_filter curve data :
  JNum <$> numericValues curve data
  = filter (λ v, is_number v = true) (valueOf curve <$> data).
Proof.
  unfold numericValues. induction (valueOf curve <$> data) as [|v l IH].
  - reflexivity.
  - rewrite filter_cons. destruct v; simpl; first [exact IH | f_equal; exact IH].
Qed.

Lemma elem_of_numericValues curve data n :
  n ∈ numericValues curve data ↔ ∃ d, d ∈ data ∧ valueOf curve d = JNum n.
Proof.
  unfold numericValues. rewrite list_elem_of_omap. split.
  - intros (v & Hv & Hn). apply list_elem_of_fmap in Hv as (d & -> & Hd).
    exists d. split; [done|]. by destruct (valueOf curve d); simplify_eq/=.
  - intros (d & Hd & Hv). exists (JNum n). split; [|done].
    apply list_elem_of_fmap. eauto.
Qed.

Lemma Qc_min_le_l a b : (Qc_min a b ≤ a)%Qc.
Proof.
  unfold Qc_min. case_decide; [apply Qcle_refl|].
  apply Qclt_le_weak. by apply Qcnot_le_lt.
Qed.

Lemma Qc_min_le_r a b : (Qc_min a b ≤ b)%Qc.
Proof. unfold Qc_min. case_decide; [done|apply Qcle_refl]. Qed.

Lemma Qc_max_ge_l a b : (a ≤ Qc_max a b)%Qc.
Proof. unfold Qc_max. case_decide; [done|apply Qcle_refl]. Qed.

Lemma Qc_max_ge_r a b : (b ≤ Qc_max a b)%Qc.
Proof.
  unfold Qc_max. case_decide; [apply Qcle_refl|].
  apply Qclt_le_weak. by apply Qcnot_le_lt.
Qed.

Lemma Qc_min_cases a b : Qc_min a b = a ∨ Qc_min a b = b.
Proof. unfold Qc_min. case_decide; auto. Qed.

Lemma Qc_max_cases a b : Qc_max a b = a ∨ Qc_max a b = b.
Proof. unfold Qc_max. case_decide; auto. Qed.

Lemma Math_min_elem v vs : Math_min v vs ∈ v :: vs.
Proof.
  unfold Math_min. revert v. induction vs as [|w vs IH]; intros v; simpl.
  - apply elem_of_cons. by left.
  - destruct (elem_of_cons vs (foldl Qc_min (Qc_min v w) vs) (Qc_min v w))
      as [[Hacc|Hacc] _]; [apply IH| |].
    + rewrite Hacc. rewrite !elem_of_cons.
      destruct (Qc_min_cases v w) as [->| ->]; auto.
    + rewrite !elem_of_cons. auto.
Qed.

Lemma Math_max_elem v vs : Math_max v vs ∈ v :: vs.
Proof.
  unfold Math_max. revert v. induction vs as [|w vs IH]; intros v; simpl.
  - apply elem_of_cons. by left.
  - destruct (elem_of_cons vs (foldl Qc_max (Qc_max v w) vs) (Qc_max v w))
      as [[Hacc|Hacc] _]; [apply IH| |].
    + rewrite Hacc. rewrite !elem_of_cons.
      destruct (Qc_max_cases v w) as [->| ->]; auto.
    + rewrite !elem_of_cons. auto.
Qed.

Lemma Math_min_le_acc v vs : (Math_min v vs ≤ v)%Qc.
Proof.
  unfold Math_min. revert v. induction vs as [|w vs IH]; intros v; simpl.
  - apply Qcle_refl.
  - eapply Qcle_trans; [apply IH|apply Qc_min_le_l].
Qed.

Lemma Math_max_ge_acc v vs : (v ≤ Math_max v vs)%Qc.
Proof.
  unfold Math_max. revert v. induction vs as [|w vs IH]; intros v; simpl.
  - apply Qcle_refl.
  - eapply Qcle_trans; [apply Qc_max_ge_l|apply IH].
Qed.

Lemma Math_min_lower v vs n : n ∈ v :: vs → (Math_min v vs ≤ n)%Qc.
Proof.
  revert v. induction vs as [|w vs IH]; intros v Hn.
  - apply list_elem_of_singleton in Hn as ->. apply Qcle_refl.
  - apply elem_of_cons in Hn as [->|Hn].
    + apply Math_min_le_acc.
    + change (Math_min v (w :: vs)) with (Math_min (Qc_min v w) vs).
      apply elem_of_cons in Hn as [->|Hn].
      * eapply Qcle_trans; [apply Math_min_le_acc|apply Qc_min_le_r].
      * apply IH. set_solver.
Qed.

Lemma Math_max_upper v vs n : n ∈ v :: vs → (n ≤ Math_max v vs)%Qc.
Proof.
  revert v. induction vs as [|w vs IH]; intros v Hn.
  - apply list_elem_of_singleton in Hn as ->. apply Qcle_refl.
  - apply elem_of_cons in Hn as [->|Hn].
    + apply Math_max_ge_acc.
    + change (Math_max v (w :: vs)) with (Math_max (Qc_max v w) vs).
      apply elem_of_cons in Hn as [->|Hn].
      * eapply Qcle_trans; [apply Qc_max_ge_r|apply Math_max_ge_acc].
      * apply IH. set_solver.
Qed.

(** ** The axis-range cache only grows *)

Section cache.
Implicit Types (axisRanges : gmap string (Qc * Qc)) (data : list Sample.t).
Implicit Types (curve : string) (r : Qc * Qc).

Lemma readRange_own axisRanges curve r :
  axisRanges !! curve = Some r → readRange axisRanges curve = RangePair r.
Proof. intros Hr. unfold readRange. by rewrite Hr. Qed.

(** The read misses exactly when the curve has no entry of its own and
    its name is not that of an inherited member. *)
Lemma readRange_undefined axisRanges curve :
  readRange axisRanges curve = RangeUndefined
  ↔ axisRanges !! curve = None ∧ inherited curve = false.
Proof.
  unfold readRange. destruct (axisRanges !! curve), (inherited curve);
    split; try done; by intros [? ?].
Qed.

Lemma persistAxisRange_hit curve data axisRanges r :
  axisRanges !! curve = Some r →
  persistAxisRange curve data axisRanges = axisRanges.
Proof.
  intros Hr. unfold persistAxisRange. by rewrite (readRange_own _ _ r).
Qed.

Lemma persistAxisRange_inherited curve data axisRanges :
  inherited curve = true →
  persistAxisRange curve data axisRanges = axisRanges.
Proof.
  intros Hin. unfold persistAxisRange, readRange.
  destruct (axisRanges !! curve); [done|]. by rewrite Hin.
Qed.

(** The loop body either leaves the cache alone or adds the range of the
    batch under a name that had no entry. *)
Lemma persistAxisRange_cases curve data axisRanges :
  persistAxisRange curve data axisRanges = axisRanges
  ∨ (axisRanges !! curve = None ∧ inherited curve = false
     ∧ ∃ v vs, numericValues curve data = v :: vs
         ∧ persistAxisRange curve data axisRanges
           = <[curve := (Math_min v vs, Math_max v vs)]> axisRanges).
Proof.
  unfold persistAxisRange.
  destruct (readRange axisRanges curve) eqn:Hread; [|by left..].
  apply readRange_undefined in Hread as [Hnone Hname].
  destruct (numericValues curve data) as [|v vs]; [by left|].
  right. split; [done|]. split; [done|]. by exists v, vs.
Qed.

Lemma persistAxisRange_lookup curve data axisRanges :
  persistAxisRange curve data axisRanges !! curve
  = match axisRanges !! curve with
    | Some r => Some r
    | None =>
        if inherited curve then None
        else
          match numericValues curve data with
          | [] => None
          | v :: vs => Some (Math_min v vs, Math_max v vs)
          end
    end.
Proof.
  unfold persistAxisRange, readRange.
  destruct (axisRanges !! curve) eqn:Hc; [done|].
  destruct (inherited curve); [done|].
  destruct (numericValues curve data); [done|]. by rewrite lookup_insert_eq.
Qed.

Lemma persistAxisRange_subseteq curve data axisRanges :
  axisRanges ⊆ persistAxisRange curve data axisRanges.
Proof.
  destruct (persistAxisRange_cases curve data axisRanges)
    as [->|(Hnone & _ & v & vs & _ & ->)]; [done|].
  by apply insert_subseteq.
Qed.

Lemma persistAxisRange_other curve curve' data axisRanges :
  curve ≠ curve' →
  persistAxisRange curve data axisRanges !! curve' = axisRanges !! curve'.
Proof.
  intros Hne.
  destruct (persistAxisRange_cases curve data axisRanges)
    as [->|(_ & _ & v & vs & _ & ->)]; [done|].
  by rewrite lookup_insert_ne.
Qed.

Lemma persistAxisRanges_subseteq selectedCurves data axisRanges :
  axisRanges ⊆ persistAxisRanges selectedCurves data axisRanges.
Proof.
  unfold persistAxisRanges. revert axisRanges.
  induction selectedCurves as [|c sel IH]; intros axisRanges; simpl.
  - done.
  - etrans; [apply (persistAxisRange_subseteq c data)|apply IH].
Qed.

Lemma persistAxisRanges_not_selected selectedCurves data axisRanges curve :
  curve ∉ selectedCurves →
  persistAxisRanges selectedCurves data axisRanges !! curve
  = axisRanges !! curve.
Proof.
  unfold persistAxisRanges. revert axisRanges.
  induction selectedCurves as [|c sel IH]; intros axisRanges Hc; simpl.
  - done.
  - apply not_elem_of_cons in Hc as [Hne Hc].
    rewrite IH by done. by apply persistAxisRange_other.
Qed.

(** For a selected curve the loop stores what the loop body stores. *)
Lemma persistAxisRanges_selected selectedCurves data axisRanges curve :
  curve ∈ selectedCurves →
  persistAxisRanges selectedCurves data axisRanges !! curve
  = persistAxisRange curve data axisRanges !! curve.
Proof.
  unfold persistAxisRanges. revert axisRanges.
  induction selectedCurves as [|c sel IH]; intros axisRanges Hc; simpl.
  - by apply elem_of_nil in Hc.
  - fold (persistAxisRanges sel data (persistAxisRange c data axisRanges)).
    destruct (decide (curve ∈ sel)) as [Hin|Hnin].
    + unfold persistAxisRanges. rewrite IH by done.
      rewrite (persistAxisRange_lookup curve data (persistAxisRange _ _ _)).
      destruct (decide (c = curve)) as [->|Hne].
      * rewrite !persistAxisRange_lookup.
        destruct (axisRanges !! curve); [done|].
        destruct (inherited curve); [done|].
        by destruct (numericValues curve data).
      * rewrite persistAxisRange_other by done.
        by rewrite persistAxisRange_lookup.
    + rewrite persistAxisRanges_not_selected by done.
      apply elem_of_cons in Hc as [->|Hc]; done.
Qed.
Lemma persistAxisRanges_lookup selectedCurves data axisRanges curve :
  persistAxisRanges selectedCurves data axisRanges !! curve
  = if decide (curve ∈ selectedCurves)
    then persistAxisRange curve data axisRanges !! curve
    else axisRanges !! curve.
Proof.
  case_decide.
  - by apply persistAxisRanges_selected.
  - by apply persistAxisRanges_not_selected.
Qed.
End cache.

Section session.
Implicit Types (st : App.t) (ev : Event).

(** No handler touches [axisRangesRef]. *)
Lemma handle_axisRanges ev st :
  App.axisRanges (handle ev st) = App.axisRanges st.
Proof.
  destruct ev; simpl; try done.
  - unfold curvesLoaded. by destruct (filter _ res).
  - unfold fetchData. by case_decide.
  - unfold runAIInterpretation. by case_decide.
  - unfold handleDeleteWell. by case_decide.
Qed.

Lemma runPlotEffect_axisRanges st :
  App.axisRanges (runPlotEffect st).1
  = if decide (length (App.data st) = 0) then App.axisRanges st
    else persistAxisRanges (App.selectedCurves st) (App.data st)
                           (App.axisRanges st).
Proof.
  unfold runPlotEffect, plotEffect. simpl.
  case_bool_decide; by case_decide.
Qed.

Lemma runPlotEffect_subseteq st :
  App.axisRanges st ⊆ App.axisRanges (runPlotEffect st).1.
Proof.
  rewrite runPlotEffect_axisRanges. case_decide; [done|].
  apply persistAxisRanges_subseteq.
Qed.

Lemma step_axisRanges_subseteq st ev :
  App.axisRanges st ⊆ App.axisRanges (step st ev).
Proof.
  unfold step. destruct (plotDepsSet ev st).
  - rewrite <-(handle_axisRanges ev st) at 1. apply runPlotEffect_subseteq.
  - by rewrite handle_axisRanges.
Qed.

Lemma run_axisRanges_subseteq st evs :
  App.axisRanges st ⊆ App.axisRanges (run st evs).
Proof.
  unfold run. revert st. induction evs as [|ev evs IH]; intros st; simpl.
  - done.
  - etrans; [apply (step_axisRanges_subseteq st ev)|apply IH].
Qed.
End session.

(** C1.  Axis-range stability (first batch wins): once a range is cached
    for a curve, computing the range for that curve from any batch leaves
    the whole cache as it is, the loop over any selection with any batch
    still yields that range, and so does every later sequence of events
    of the component. *)
Theorem axis_range_first_batch_wins (st : App.t) (c : string) (r : Qc * Qc) :
  App.axisRanges st !! c = Some r →
  (∀ batch, persistAxisRange c batch (App.axisRanges st) = App.axisRanges st)
  ∧ (∀ selection batch,
       persistAxisRanges selection batch (App.axisRanges st) !! c = Some r)
  ∧ (∀ batches,
       foldl (λ ranges batch, persistAxisRange c batch ranges)
             (App.axisRanges st) batches = App.axisRanges st)
  ∧ (∀ evs, App.axisRanges (run st evs) !! c = Some r).
Proof.
  intros Hr. repeat split.
  - intros batch. by eapply persistAxisRange_hit.
  - intros selection batch. eapply lookup_weaken; [exact Hr|].
    apply persistAxisRanges_subseteq.
  - intros batches. induction batches as [|b bs IH]; simpl; [done|].
    by erewrite persistAxisRange_hit.
  - intros evs. eapply lookup_weaken; [exact Hr|].
    apply run_axisRanges_subseteq.
Qed.

Lemma axis_range_first_batch_wins_witness :
  App.axisRanges after_first_batch !! "GR" = Some (Qc_of_Z 5, Qc_of_Z 15)
  ∧ persistAxisRanges ["GR"] batch_100 (App.axisRanges after_first_batch)
      !! "GR" = Some (Qc_of_Z 5, Qc_of_Z 15)
  ∧ App.axisRanges (run after_first_batch [DataLoaded batch_100]) !! "GR"
    = Some (Qc_of_Z 5, Qc_of_Z 15).
Proof.
  assert (App.axisRanges after_first_batch !! "GR"
          = Some (Qc_of_Z 5, Qc_of_Z 15)) as Hr by reflexivity.
  split; [exact Hr|].
  destruct (axis_range_first_batch_wins after_first_batch "GR" _ Hr)
    as (_ & Hloop & _ & Hrun).
  split; [apply Hloop|apply Hrun].
Defined.

(** ** Cache miss *)

Lemma has_numeric_numericValues curve data :
  has_numeric curve data ↔ numericValues curve data ≠ [].
Proof.
  split.
  - intros (d & n & Hd & Hv) Hnil.
    assert (n ∈ numericValues curve data) as Hn
      by (apply elem_of_numericValues; eauto).
    rewrite Hnil in Hn. by apply elem_of_nil in Hn.
  - destruct (numericValues curve data) as [|n ns] eqn:Hvs; [done|].
    intros _. assert (n ∈ numericValues curve data) as Hn
      by (rewrite Hvs; apply elem_of_cons; by left).
    apply elem_of_numericValues in Hn as (d & Hd & Hv).
    by exists d, n.
Qed.

Lemma persistAxisRange_miss curve data axisRanges :
  axisRanges !! curve = None → inherited curve = false →
  has_numeric curve data →
  ∃ r, persistAxisRange curve data axisRanges !! curve = Some r
       ∧ is_range_of curve data r.
Proof.
  intros Hmiss Hname Hnum%has_numeric_numericValues.
  rewrite persistAxisRange_lookup, Hmiss, Hname.
  destruct (numericValues curve data) as [|v vs] eqn:Hvs; [done|].
  exists (Math_min v vs, Math_max v vs).
  split; [done|]. unfold is_range_of; simpl. split; [|split].
  - apply elem_of_numericValues. rewrite Hvs. apply Math_min_elem.
  - apply elem_of_numericValues. rewrite Hvs. apply Math_max_elem.
  - intros d n Hd Hv.
    assert (n ∈ v :: vs) as Hn
      by (rewrite <-Hvs; apply elem_of_numericValues; eauto).
    split; [by apply Math_min_lower|by apply Math_max_upper].
Qed.

Lemma persistAxisRange_no_numeric curve data axisRanges :
  ¬ has_numeric curve data →
  persistAxisRange curve data axisRanges = axisRanges.
Proof.
  intros Hnum.
  destruct (persistAxisRange_cases curve data axisRanges)
    as [->|(_ & _ & v & vs & Hvs & _)]; [done|].
  destruct Hnum. apply has_numeric_numericValues. by rewrite Hvs.
Qed.

(** C2.  The range computation at a curve whose name is that of a
    member of [Object.prototype] (constructor, toString, ...): the read
    of the cache finds the inherited member, so whatever numbers the
    batch has for the curve nothing is ever stored for it, by the loop
    body or by the loop over any selection, and the axis built for the
    curve gets the inherited member as its range. *)
Theorem axis_range_inherited_name (c : string) (data : list Sample.t)
    (axisRanges : gmap string (Qc * Qc)) (selection : list string) :
  c ∈ objectPrototypeMembers →
  axisRanges !! c = None →
  persistAxisRange c data axisRanges = axisRanges
  ∧ persistAxisRanges selection data axisRanges !! c = None
  ∧ ∀ i, Axis.range
           (axisConfig (persistAxisRanges selection data axisRanges) i c)
         = RangeInherited c.
Proof.
  intros Hmember Hnone.
  assert (inherited c = true) as Hname by by apply bool_decide_eq_true.
  assert (persistAxisRanges selection data axisRanges !! c = None) as Hloop.
  { rewrite persistAxisRanges_lookup.
    case_decide; [|done]. by rewrite persistAxisRange_inherited. }
  split; [by apply persistAxisRange_inherited|]. split; [done|].
  intros i. simpl. unfold readRange. by rewrite Hloop, Hname.
Qed.

Lemma axis_range_inherited_name_witness :
  has_numeric "constructor" batch_constructor
  ∧ persistAxisRanges ["constructor"] batch_constructor ∅ = ∅
  ∧ Axis.range
      (axisConfig (persistAxisRanges ["constructor"] batch_constructor ∅)
                  0 "constructor")
    = RangeInherited "constructor".
Proof.
  assert ("constructor" ∈ objectPrototypeMembers) as Hmember
    by (apply elem_of_cons; by left).
  destruct (axis_range_inherited_name "constructor" batch_constructor ∅
              ["constructor"] Hmember (lookup_empty _))
    as (Hbody & _ & Hrange).
  split; [apply has_numeric_numericValues; discriminate|].
  split; [exact Hbody|apply Hrange].
Defined.

(** ** Axis layout *)

Lemma yaxes_lookup selectedCurves axisRanges i c :
  selectedCurves !! i = Some c →
  yaxes selectedCurves axisRanges !! i
  = Some (axisName i, axisConfig axisRanges i c).
Proof. intros Hc. unfold yaxes. by rewrite list_lookup_imap, Hc. Qed.

Lemma length_yaxes selectedCurves axisRanges :
  length (yaxes selectedCurves axisRanges) = length selectedCurves.
Proof. apply length_imap. Qed.

Lemma plotEffect_built data selectedCurves interpretation axisRanges :
  data ≠ [] →
  plotEffect true data selectedCurves interpretation axisRanges
  = (persistAxisRanges selectedCurves data axisRanges,
     Some {| Chart.traces := assemble data selectedCurves interpretation;
             Chart.title := "Well Log Curves vs Depth";
             Chart.axes :=
               yaxes selectedCurves
                     (persistAxisRanges selectedCurves data axisRanges);
             Chart.height := 700 |}).
Proof.
  intros Hdata. unfold plotEffect. simpl.
  case_bool_decide as Hlen; [|done]. by destruct data.
Qed.

(** A batch without a number for GR leaves GR uncached, and the axis
    built for it still says [autorange: false]. *)
Lemma range_lock_policy_counterexample :
  ¬ range_lock_policy ["GR"] (persistAxisRanges ["GR"] batch_gaps ∅).
Proof.
  intros Hpolicy. destruct (Hpolicy 0 "GR" eq_refl) as (cfg & Hcfg & Hauto).
  vm_compute in Hcfg. injection Hcfg as <-. vm_compute in Hauto. by apply Hauto.
Qed.

(** C3 (amended).  Every axis built for a selected curve carries
    [autorange: false] and [fixedrange: true], under the layout key of
    its index.  Its [range] is the cached [min, max] when the cache
    holds one for the curve after the range computation, and no range
    at all when it holds none and the curve's name is not that of a
    member of [Object.prototype]. *)
Theorem axis_range_lock (data : list Sample.t) (selectedCurves : list string)
    (interpretation : option Interp.t) (axisRanges : gmap string (Qc * Qc))
    (i : nat) (c : string) :
  data ≠ [] →
  selectedCurves !! i = Some c →
  ∃ chart cfg,
    plotEffect true data selectedCurves interpretation axisRanges
    = (persistAxisRanges selectedCurves data axisRanges, Some chart)
    ∧ Chart.axes chart !! i = Some ("yaxis" +:+ axisSuffix i, cfg)
    ∧ (∀ r, persistAxisRanges selectedCurves data axisRanges !! c = Some r →
         Axis.range cfg = RangePair r)
    ∧ (persistAxisRanges selectedCurves data axisRanges !! c = None →
       c ∉ objectPrototypeMembers →
       Axis.range cfg = RangeUndefined)
    ∧ Axis.autorange cfg = Some false
    ∧ Axis.fixedrange cfg = Some true.
Proof.
  intros Hdata Hc. eexists _, _. split; [by apply plotEffect_built|].
  simpl. split.
  { rewrite (yaxes_lookup _ _ _ _ Hc). unfold axisName, axisSuffix.
    by case_decide. }
  simpl. unfold readRange. split; [by intros r ->|].
  split; [|done]. intros -> Hname. unfold inherited.
  by rewrite (bool_decide_eq_false_2 _ Hname).
Qed.

Lemma axis_range_lock_witness :
  ∃ chart cfg0 cfg1,
    plotEffect true batch_5_15 ["GR"; "RHOB"] None ∅
    = (persistAxisRanges ["GR"; "RHOB"] batch_5_15 ∅, Some chart)
    ∧ Chart.axes chart !! 0 = Some ("yaxis", cfg0)
    ∧ Axis.range cfg0 = RangePair (Qc_of_Z 5, Qc_of_Z 15)
    ∧ Chart.axes chart !! 1 = Some ("yaxis2", cfg1)
    ∧ Axis.range cfg1 = RangeUndefined
    ∧ Axis.autorange cfg1 = Some false
    ∧ Axis.fixedrange cfg1 = Some true.
Proof.
  assert (batch_5_15 ≠ []) as Hdata by discriminate.
  destruct (axis_range_lock batch_5_15 ["GR"; "RHOB"] None ∅ 0 "GR"
              Hdata eq_refl)
    as (chart & cfg0 & Hplot & Hkey0 & Hpair & _).
  destruct (axis_range_lock batch_5_15 ["GR"; "RHOB"] None ∅ 1 "RHOB"
              Hdata eq_refl)
    as (chart' & cfg1 & Hplot' & Hkey1 & _ & Hnone & Hauto & Hfixed).
  rewrite Hplot in Hplot'. injection Hplot' as <-.
  exists chart, cfg0, cfg1. split; [exact Hplot|].
  split; [exact Hkey0|]. split; [by apply Hpair|].
  split; [exact Hkey1|]. split; [|by split].
  apply Hnone; [reflexivity|].
  intros Hin. apply (bool_decide_pack _) in Hin. vm_compute in Hin.
  exact Hin.
Defined.

(** C9.  Axis layout shape: there is one axis per selected curve; the
    axis of the i-th curve sits under the layout key "yaxis" for i = 0
    and "yaxis" followed by the decimal of i + 1 otherwise, is titled
    with the curve name and carries the range cached under that name,
    if any.  Axis 0 shows its grid, sits on the left and overlays
    nothing; every axis i >= 1 overlays the primary axis "y" (the axis
    of the first curve's traces), hides its grid, and sits on the left
    for even i and on the right for odd i. *)
Theorem axis_layout_shape (selectedCurves : list string)
    (axisRanges : gmap string (Qc * Qc)) (i : nat) (c : string) :
  selectedCurves !! i = Some c →
  length (yaxes selectedCurves axisRanges) = length selectedCurves
  ∧ ∃ cfg,
      yaxes selectedCurves axisRanges !! i
      = Some (if decide (i = 0) then "yaxis" else "yaxis" +:+ pretty (i + 1),
              cfg)
      ∧ Axis.title cfg = c
      ∧ (∀ r, axisRanges !! c = Some r → Axis.range cfg = RangePair r)
      ∧ (i = 0 →
           Axis.showgrid cfg = true ∧ Axis.side cfg = Some left_side
           ∧ Axis.overlaying cfg = None)
      ∧ (1 ≤ i →
           Axis.overlaying cfg = Some "y"
           ∧ Trace.yaxis (lineTrace [] 0 c) = Some "y"
           ∧ Axis.showgrid cfg = false
           ∧ (i mod 2 = 0 → Axis.side cfg = Some left_side)
           ∧ (i mod 2 = 1 → Axis.side cfg = Some right_side)).
Proof.
  intros Hc. split; [apply length_yaxes|].
  exists (axisConfig axisRanges i c). split; [by apply yaxes_lookup|].
  unfold axisConfig; simpl. split; [done|].
  split; [intros r Hr; by apply readRange_own|]. split.
  - by intros ->.
  - intros Hi. split; [case_decide; [lia|done]|]. split; [done|].
    split; [case_bool_decide; [lia|done]|].
    split; intros Hparity; case_decide; first [done|lia].
Qed.

Lemma axis_layout_shape_witness :
  ∃ cfg0 cfg1 cfg2,
    yaxes ["GR"; "RHOB"; "NPHI"] ∅ !! 0 = Some ("yaxis", cfg0)
    ∧ yaxes ["GR"; "RHOB"; "NPHI"] ∅ !! 1 = Some ("yaxis2", cfg1)
    ∧ yaxes ["GR"; "RHOB"; "NPHI"] ∅ !! 2 = Some ("yaxis3", cfg2)
    ∧ Axis.showgrid cfg0 = true
    ∧ Axis.side cfg0 = Some left_side
    ∧ Axis.title cfg1 = "RHOB"
    ∧ Axis.overlaying cfg1 = Some "y"
    ∧ Axis.showgrid cfg1 = false
    ∧ Axis.side cfg1 = Some right_side
    ∧ Axis.side cfg2 = Some left_side.
Proof.
  destruct (axis_layout_shape ["GR"; "RHOB"; "NPHI"] ∅ 0 "GR" eq_refl)
    as (_ & cfg0 & Hkey0 & _ & _ & Hzero & _).
  destruct (axis_layout_shape ["GR"; "RHOB"; "NPHI"] ∅ 1 "RHOB" eq_refl)
    as (_ & cfg1 & Hkey1 & Htitle1 & _ & _ & Hone).
  destruct (axis_layout_shape ["GR"; "RHOB"; "NPHI"] ∅ 2 "NPHI" eq_refl)
    as (_ & cfg2 & Hkey2 & _ & _ & _ & Htwo).
  destruct (Hzero eq_refl) as (Hgrid0 & Hside0 & _).
  destruct Hone as (Hover1 & _ & Hgrid1 & _ & Hodd); [lia|].
  destruct Htwo as (_ & _ & _ & Heven & _); [lia|].
  exists cfg0, cfg1, cfg2.
  split; [exact Hkey0|]. split; [exact Hkey1|]. split; [exact Hkey2|].
  split; [exact Hgrid0|]. split; [exact Hside0|]. split; [exact Htitle1|].
  split; [exact Hover1|]. split; [exact Hgrid1|].
  split; [by apply Hodd|by apply Heven].
Defined.

(** ** Well change *)

Section frame.
Implicit Types (st : App.t) (ev : Event).

(** The plot effect writes [axisRangesRef] only. *)
Lemma runPlotEffect_data st : App.data (runPlotEffect st).1 = App.data st.
Proof. unfold runPlotEffect. by destruct plotEffect. Qed.

Lemma runPlotEffect_selectedCurves st :
  App.selectedCurves (runPlotEffect st).1 = App.selectedCurves st.
Proof. unfold runPlotEffect. by destruct plotEffect. Qed.

Lemma step_data st ev : App.data (step st ev) = App.data (handle ev st).
Proof.
  unfold step. destruct plotDepsSet; [apply runPlotEffect_data|done].
Qed.

Lemma step_selectedCurves st ev :
  App.selectedCurves (step st ev) = App.selectedCurves (handle ev st).
Proof.
  unfold step.
  destruct plotDepsSet; [apply runPlotEffect_selectedCurves|done].
Qed.

Lemma curvesLoaded_data res st : App.data (curvesLoaded res st) = App.data st.
Proof. unfold curvesLoaded. by destruct (filter _ res). Qed.

Lemma curvesLoaded_selectedCurves res st :
  App.selectedCurves (curvesLoaded res st)
  = take 1 (filter (λ c, c ≠ "Depth" ∧ c ≠ "Time") res).
Proof. unfold curvesLoaded. by destruct (filter _ res). Qed.
End frame.

(** After GR of well W1 has been cached as [5, 15], selecting well W2
    leaves that range in the cache. *)
Lemma well_change_clears_cache_counterexample :
  ¬ well_change_clears_cache after_first_batch "W2" ["Depth"; "GR"].
Proof.
  intros Hclear.
  assert (App.axisRanges (changeWell "W2" ["Depth"; "GR"] after_first_batch)
            !! "GR" = None) as Hnone.
  { apply Hclear; [discriminate|]. by eexists. }
  vm_compute in Hnone. discriminate.
Qed.

(** The range of well W1 is still the one used once the samples of well
    W2 are loaded. *)
Example stale_range_after_well_change :
  App.axisRanges
    (run after_first_batch
         [SelectWell "W2"; CurvesLoaded ["Depth"; "GR"]; DataLoaded batch_100])
    !! "GR" = Some (Qc_of_Z 5, Qc_of_Z 15).
Proof. reflexivity. Qed.

(** C4 (amended).  A change of well does not tear the cache down:
    selecting a well leaves the cache and the sample store as they are;
    when the curve list of the new well arrives every range cached
    before is still there, unchanged, and the sample store is the old
    one; deleting a well keeps the cache and empties the sample store
    exactly when the deleted well is the selected one. *)
Theorem well_change_keeps_cache (st : App.t) (w wellId : string)
    (res : list string) :
  App.axisRanges (step st (SelectWell w)) = App.axisRanges st
  ∧ App.data (step st (SelectWell w)) = App.data st
  ∧ App.axisRanges st ⊆ App.axisRanges (changeWell w res st)
  ∧ App.data (changeWell w res st) = App.data st
  ∧ App.axisRanges (step st (DeleteWell wellId)) = App.axisRanges st
  ∧ App.data (step st (DeleteWell wellId))
    = if decide (App.selectedWell st = wellId) then [] else App.data st.
Proof.
  split; [done|]. split; [done|]. split; [apply run_axisRanges_subseteq|].
  split.
  { unfold changeWell, run; simpl.
    by rewrite step_data; simpl; rewrite curvesLoaded_data. }
  split.
  - unfold step; simpl. unfold handleDeleteWell.
    case_bool_decide; case_decide; done.
  - rewrite step_data; simpl. unfold handleDeleteWell. by case_decide.
Qed.

(** ** Empty selection *)

Lemma empty_selection_counterexample :
  ¬ empty_selection_suppresses_render after_empty_well.
Proof.
  intros Hsup. destruct (Hsup eq_refl) as [_ Hnone].
  vm_compute in Hnone. discriminate.
Qed.

(** C7 (amended).  With an empty selection [assemble] returns the empty
    sequence and the cache is left alone; the render call is suppressed
    only when there are no samples (or no plot container), otherwise the
    chart is built with no traces and no y-axes. *)
Theorem empty_selection_chart (plotMounted : bool) (data : list Sample.t)
    (interpretation : option Interp.t) (axisRanges : gmap string (Qc * Qc)) :
  assemble data [] interpretation = []
  ∧ plotEffect plotMounted data [] interpretation axisRanges
    = (axisRanges,
       if plotMounted && negb (bool_decide (length data = 0))
       then Some {| Chart.traces := [];
                    Chart.title := "Well Log Curves vs Depth";
                    Chart.axes := [];
                    Chart.height := 700 |}
       else None).
Proof.
  split; [done|]. unfold plotEffect.
  destruct plotMounted; simpl; [|done]. by case_bool_decide.
Qed.

(** ** Selection size *)

Section selection.
Implicit Types (selectedCurves : list string) (name : string).

Lemma toggle_add name selectedCurves :
  name ∉ selectedCurves → length selectedCurves < 3 →
  toggle name selectedCurves = selectedCurves ++ [name].
Proof.
  intros Hnew Hlen. unfold toggle, onChange.
  rewrite bool_decide_eq_false_2 by done. simpl. case_decide; [lia|done].
Qed.

Lemma toggle_full name selectedCurves :
  name ∉ selectedCurves → 3 ≤ length selectedCurves →
  toggle name selectedCurves = selectedCurves.
Proof.
  intros Hnew Hlen. unfold toggle, onChange.
  rewrite bool_decide_eq_false_2 by done. simpl. by case_decide.
Qed.

Lemma toggle_remove name selectedCurves :
  name ∈ selectedCurves →
  toggle name selectedCurves
  = filter (λ curve, curve ≠ name) selectedCurves.
Proof.
  intros Hin. unfold toggle, onChange. by rewrite bool_decide_eq_true_2.
Qed.

Lemma toggle_length name selectedCurves :
  length selectedCurves ≤ 3 → length (toggle name selectedCurves) ≤ 3.
Proof.
  intros Hlen. destruct (decide (name ∈ selectedCurves)) as [Hin|Hnew].
  - rewrite toggle_remove by done.
    etrans; [apply length_filter|done].
  - destruct (decide (3 ≤ length selectedCurves)).
    + by rewrite toggle_full.
    + rewrite toggle_add by (done || lia). rewrite length_app. simpl. lia.
Qed.

Lemma toggle_NoDup name selectedCurves :
  NoDup selectedCurves → NoDup (toggle name selectedCurves).
Proof.
  intros Hnd. destruct (decide (name ∈ selectedCurves)) as [Hin|Hnew].
  - rewrite toggle_remove by done. by apply NoDup_filter.
  - destruct (decide (3 ≤ length selectedCurves)).
    + by rewrite toggle_full.
    + rewrite toggle_add by (done || lia). apply NoDup_app.
      split; [done|]. split; [|apply NoDup_singleton].
      intros x Hx ->%list_elem_of_singleton. done.
Qed.

(** Removing one of several distinct names leaves all the others. *)
Lemma length_filter_ne name selectedCurves :
  NoDup selectedCurves → name ∈ selectedCurves →
  S (length (filter (λ curve, curve ≠ name) selectedCurves))
  = length selectedCurves.
Proof.
  induction 1 as [|c sel Hc Hnd IH]; intros Hin.
  - by apply elem_of_nil in Hin.
  - rewrite filter_cons. case_decide as Hne.
    + apply elem_of_cons in Hin as [->|Hin]; [done|].
      simpl. by rewrite IH.
    + subst c. f_equal.
      clear IH Hin Hnd. induction sel as [|c' sel IH]; [done|].
      apply not_elem_of_cons in Hc as [Hne Hc].
      rewrite filter_cons. case_decide; [|done]. simpl. by rewrite IH.
Qed.
End selection.

(** With GR selected, the curve list of a well that only has the
    excluded curves empties the selection. *)
Lemma selection_invariant_counterexample :
  ¬ selection_invariant_preserved after_select_W2
      (CurvesLoaded ["Depth"; "Time"]).
Proof.
  intros Hpres. destruct Hpres as [[Hmin _] _].
  - vm_compute. repeat split; [lia..|]. apply NoDup_singleton.
  - vm_compute in Hmin. lia.
Qed.

(** C10 (amended).  Every operation keeps at most three distinct curves
    selected, and ticking a fourth curve when three are selected changes
    nothing.  At least one curve stays selected when a curve is added,
    when one of at least two selected curves is removed, and when the
    curve list of a well with a selectable curve arrives, which selects
    its first selectable curve; a well without one empties the
    selection. *)
Theorem selection_size (st : App.t) (ev : Event) :
  length (App.selectedCurves st) ≤ 3 →
  NoDup (App.selectedCurves st) →
  (length (App.selectedCurves (step st ev)) ≤ 3
   ∧ NoDup (App.selectedCurves (step st ev)))
  ∧ (∀ name, length (App.selectedCurves st) = 3 →
       name ∉ App.selectedCurves st →
       step st (ToggleCurve name) = st)
  ∧ (∀ name, name ∉ App.selectedCurves st →
       1 ≤ length (App.selectedCurves (step st (ToggleCurve name))))
  ∧ (∀ name, 2 ≤ length (App.selectedCurves st) →
       1 ≤ length (App.selectedCurves (step st (ToggleCurve name))))
  ∧ (∀ res, App.selectedCurves (step st (CurvesLoaded res))
            = take 1 (filter (λ c, c ≠ "Depth" ∧ c ≠ "Time") res)).
Proof.
  intros Hlen Hnd. split; [|split; [|split; [|split]]].
  - rewrite step_selectedCurves. destruct ev; simpl; try done.
    + rewrite curvesLoaded_selectedCurves. split.
      * rewrite length_take. lia.
      * destruct (filter _ res); simpl; [apply NoDup_nil_2|].
        rewrite take_0. apply NoDup_singleton.
    + split; [by apply toggle_length|by apply toggle_NoDup].
    + unfold fetchData. by case_decide.
    + unfold runAIInterpretation. by case_decide.
    + unfold handleDeleteWell. by case_decide.
  - intros name Hfull Hnew. unfold step; simpl.
    rewrite bool_decide_eq_false_2 by done.
    rewrite bool_decide_eq_true_2 by lia. simpl.
    rewrite toggle_full by (done || lia). by destruct st.
  - intros name Hnew. rewrite step_selectedCurves; simpl.
    destruct (decide (3 ≤ length (App.selectedCurves st))).
    + rewrite toggle_full by done. lia.
    + rewrite toggle_add by (done || lia). rewrite length_app. simpl. lia.
  - intros name Htwo. rewrite step_selectedCurves; simpl.
    destruct (decide (name ∈ App.selectedCurves st)) as [Hin|Hnew].
    + rewrite toggle_remove by done.
      pose proof (length_filter_ne name _ Hnd Hin). lia.
    + destruct (decide (3 ≤ length (App.selectedCurves st))).
      * rewrite toggle_full by done. lia.
      * rewrite toggle_add by (done || lia). rewrite length_app. simpl. lia.
  - intros res. rewrite step_selectedCurves; simpl.
    apply curvesLoaded_selectedCurves.
Qed.

Lemma selection_size_witness :
  App.selectedCurves three_selected = ["GR"; "RHOB"; "NPHI"]
  ∧ step three_selected (ToggleCurve "DT") = three_selected
  ∧ App.selectedCurves (step three_selected (ToggleCurve "RHOB"))
    = ["GR"; "NPHI"].
Proof.
  assert (length (App.selectedCurves three_selected) ≤ 3) as Hlen
    by (vm_compute; lia).
  assert (NoDup (App.selectedCurves three_selected)) as Hnd
    by (apply (bool_decide_unpack _); vm_compute; exact I).
  destruct (selection_size three_selected (ToggleCurve "DT") Hlen Hnd)
    as (_ & Hfull & _).
  split; [reflexivity|]. split; [|reflexivity].
  apply Hfull; [reflexivity|].
  apply (bool_decide_unpack _). vm_compute. exact I.
Defined.

(** ** Trace assembly *)

Section assemble.
Context {A : Type} (P : Trace.t → Prop) `{!∀ t, Decision (P t)}.

End assemble.



Lemma filter_markers_curveTraces data interpretation i c :
  filter (λ t, Trace.mode t = markers) (curveTraces data interpretation i c)
  = if decide (spikeDepthsOf interpretation c = []) then []
    else [markerTrace (spikePointsOf (spikeDepthsOf interpretation c) data)
                      i c].
Proof.
  unfold curveTraces.
  destruct (spikeDepthsOf interpretation c) eqn:Hsd; simpl; [done|].
  done.
Qed.


(** The decimal rendering of a number is never empty, hence the axis
    references of different indices differ. *)
Lemma pretty_N_go_nonempty (n : N) (s : string) :
  s ≠ "" → pretty_N_go n s ≠ "".
Proof.
  revert s. induction (N.lt_wf_0 n) as [n _ IH]; intros s Hs.
  destruct (decide (n = 0)%N) as [->|Hpos]; [done|].
  rewrite pretty_N_go_step by lia. apply IH; [|done].
  apply N.div_lt; lia.
Qed.

Lemma pretty_nat_nonempty (n : nat) : pretty n ≠ "".
Proof.
  unfold pretty, pretty_nat, pretty, pretty_N. case_decide; [done|].
  rewrite pretty_N_go_step by lia. by apply pretty_N_go_nonempty.
Qed.







Example spike_markers_example :
  filter (λ t, Trace.mode t = markers)
         (assemble spike_samples ["GR"] (Some spike_interpretation))
  = [{| Trace.x := [Qc_of_Z 100; Qc_of_Z 150];
        Trace.y := [num 9; num 8];
        Trace.type := "scatter";
        Trace.mode := markers;
        Trace.name := "GR Spikes";
        Trace.line := None;
        Trace.marker := Some {| Marker.color := "red"; Marker.size := 8 |};
        Trace.yaxis := Some "y" |}].
Proof. reflexivity. Qed.


(** ** Cleaned-curve overlay *)

(** An entry with two empty arrays still gives a trace, and the overlay
    is rendered. *)
Lemma cleaned_overlay_counterexample :
  ¬ cleaned_overlay_nonempty_only
      [("GR", {| Cleaned.depths := Some []; Cleaned.values := Some [] |})]
  ∧ cleanedEffect true (Some empty_cleaned) ≠ None.
Proof. split; [intros Hspec; vm_compute in Hspec|]; discriminate. Qed.

Lemma cleanedTrace_Some entry :
  both_present entry →
  cleanedTrace entry
  = Some {| Trace.x := default [] (Cleaned.depths entry.2);
            Trace.y := default [] (Cleaned.values entry.2);
            Trace.type := "scatter";
            Trace.mode := lines;
            Trace.name := cleanedName entry;
            Trace.line := Some 2%Z;
            Trace.marker := None;
            Trace.yaxis := None |}.
Proof.
  destruct entry as [curveName curveData]. intros [[ds Hd] [vs Hv]].
  simpl in *. by rewrite Hd, Hv.
Qed.

Lemma cleanedTrace_None entry : ¬ both_present entry → cleanedTrace entry = None.
Proof.
  destruct entry as [curveName curveData]. unfold both_present; simpl.
  destruct (Cleaned.depths curveData), (Cleaned.values curveData);
    try done.
  intros []. split; by eexists.
Qed.

Lemma assembleCleaned_filter cleanedCurves :
  assembleCleaned cleanedCurves
  = (λ entry,
       {| Trace.x := default [] (Cleaned.depths entry.2);
          Trace.y := default [] (Cleaned.values entry.2);
          Trace.type := "scatter";
          Trace.mode := lines;
          Trace.name := cleanedName entry;
          Trace.line := Some 2%Z;
          Trace.marker := None;
          Trace.yaxis := None |}) <$> filter both_present cleanedCurves.
Proof.
  unfold assembleCleaned.
  induction cleanedCurves as [|entry l IH]; [done|].
  rewrite filter_cons. simpl. case_decide as Hp.
  - rewrite (cleanedTrace_Some entry Hp). simpl. by f_equal.
  - by rewrite (cleanedTrace_None entry Hp).
Qed.

(** C8 (amended).  Cleaned overlay: [assembleCleaned] gives exactly one
    line trace per entry of [cleanedCurves] that has both [depths] and
    [values], empty or not, in the order of the entries, with the entry's
    depths as x and values as y; entries lacking a field are skipped.
    The result does not depend on the selection.  The overlay is rendered
    exactly when its container is mounted, [cleanedCurves] is present and
    the trace sequence is not empty, and then with those traces. *)
Theorem cleaned_overlay (cleanedCurves : list (string * Cleaned.t))
    (interp : Interp.t) (st : App.t) (selection : list string) :
  let traces := assembleCleaned cleanedCurves in
  let kept := filter both_present cleanedCurves in
  Trace.name <$> traces = cleanedName <$> kept
  ∧ (λ t, (Some (Trace.x t), Some (Trace.y t))) <$> traces
    = (λ entry, (Cleaned.depths entry.2, Cleaned.values entry.2)) <$> kept
  ∧ Forall (λ t, Trace.mode t = lines) traces
  ∧ runCleanedEffect (setSelectedCurves selection st) = runCleanedEffect st
  ∧ cleanedEffect false (Some interp) = None
  ∧ cleanedEffect true None = None
  ∧ cleanedEffect true (Some interp)
    = match Interp.cleanedCurves interp with
      | None => None
      | Some cc =>
          match assembleCleaned cc with
          | [] => None
          | t :: ts =>
              Some {| Chart.traces := t :: ts;
                      Chart.title := "AI Cleaned Curve (Outliers Removed)";
                      Chart.axes := [("yaxis", cleanedAxis)];
                      Chart.height := 500 |}
          end
      end.
Proof.
  intros traces kept. unfold traces, kept. rewrite assembleCleaned_filter.
  split; [|split; [|split; [|split; [|split; [|split]]]]]; try done.
  - by rewrite <-list_fmap_compose.
  - rewrite <-list_fmap_compose. apply list_fmap_ext.
    intros j entry Hj%list_elem_of_lookup_2.
    apply list_elem_of_filter in Hj as [[[ds Hd] [vs Hv]] _]. simpl.
    by rewrite Hd, Hv.
  - apply Forall_fmap, Forall_forall. by intros.
  - unfold cleanedEffect. simpl.
    destruct (Interp.cleanedCurves interp) as [cc|]; simpl; [|done].
    by destruct (assembleCleaned cc).
Qed.

(** * Further properties of the plotting code *)

(** ** The range loop as a whole *)

(** X1.  Running the range loop again on the same samples and selection
    changes nothing: a re-render with unchanged data cannot move a
    range. *)
Theorem persistAxisRanges_idempotent (selectedCurves : list string)
    (data : list Sample.t) (axisRanges : gmap string (Qc * Qc)) :
  persistAxisRanges selectedCurves data
    (persistAxisRanges selectedCurves data axisRanges)
  = persistAxisRanges selectedCurves data axisRanges.
Proof.
  apply map_eq. intros c. rewrite !persistAxisRanges_lookup.
  case_decide; [|done]. rewrite !persistAxisRange_lookup.
  rewrite persistAxisRanges_lookup, decide_True by done.
  rewrite persistAxisRange_lookup.
  destruct (axisRanges !! c); [done|].
  destruct (inherited c) eqn:Hname; [done|].
  by destruct (numericValues c data).
Qed.

(** X2.  The cache left by the range loop does not depend on the order
    in which the curves are selected. *)
Theorem persistAxisRanges_order (selectedCurves selectedCurves' : list string)
    (data : list Sample.t) (axisRanges : gmap string (Qc * Qc)) :
  selectedCurves ≡ₚ selectedCurves' →
  persistAxisRanges selectedCurves data axisRanges
  = persistAxisRanges selectedCurves' data axisRanges.
Proof.
  intros Hperm. apply map_eq. intros c. rewrite !persistAxisRanges_lookup.
  destruct (decide (c ∈ selectedCurves)) as [Hin|Hnin].
  - rewrite decide_True; [done|]. by rewrite <-Hperm.
  - rewrite decide_False; [done|]. by rewrite <-Hperm.
Qed.

Lemma persistAxisRanges_order_witness :
  persistAxisRanges ["GR"; "RHOB"] batch_gaps ∅
  = persistAxisRanges ["RHOB"; "GR"] batch_gaps ∅.
Proof.
  apply (persistAxisRanges_order ["GR"; "RHOB"] ["RHOB"; "GR"]).
  apply Permutation_swap.
Defined.

(** X3.  After the range loop a curve has an entry in the cache exactly
    when it had one before, or it is selected, the batch has a number for
    it and its name is not that of a member of [Object.prototype]; no
    other curve gets an entry. *)
Theorem persistAxisRanges_dom (selectedCurves : list string)
    (data : list Sample.t) (axisRanges : gmap string (Qc * Qc)) (c : string) :
  is_Some (persistAxisRanges selectedCurves data axisRanges !! c)
  ↔ is_Some (axisRanges !! c)
    ∨ (c ∈ selectedCurves ∧ has_numeric c data
       ∧ c ∉ objectPrototypeMembers).
Proof.
  rewrite persistAxisRanges_lookup. case_decide as Hsel.
  - rewrite persistAxisRange_lookup, has_numeric_numericValues.
    destruct (axisRanges !! c) as [r|]; [split; [by left|by eexists]|].
    unfold inherited. case_bool_decide as Hname.
    + split; [by intros []|]. intros [[]|(_ & _ & Hnot)]; done.
    + destruct (numericValues c data) as [|v vs].
      * split; [by intros []|]. intros [[]|(_ & Hnum & _)]; done.
      * split; [by right|by eexists].
  - split; [by left|]. by intros [|[]].
Qed.

Lemma persistAxisRanges_dom_witness :
  is_Some (persistAxisRanges ["GR"; "RHOB"; "constructor"]
             (batch_gaps ++ batch_constructor) ∅ !! "RHOB")
  ∧ ¬ is_Some (persistAxisRanges ["GR"; "RHOB"; "constructor"]
                 (batch_gaps ++ batch_constructor) ∅ !! "GR")
  ∧ ¬ is_Some (persistAxisRanges ["GR"; "RHOB"; "constructor"]
                 (batch_gaps ++ batch_constructor) ∅ !! "constructor").
Proof.
  split; [|split].
  - apply (persistAxisRanges_dom ["GR"; "RHOB"; "constructor"]
             (batch_gaps ++ batch_constructor) ∅ "RHOB").
    right. split; [apply elem_of_cons; right; apply elem_of_cons; by left|].
    split; [apply has_numeric_numericValues; discriminate|].
    intros Hin. apply (bool_decide_pack _) in Hin. vm_compute in Hin.
    exact Hin.
  - intros Hgr.
    apply (persistAxisRanges_dom ["GR"; "RHOB"; "constructor"]
             (batch_gaps ++ batch_constructor) ∅ "GR") in Hgr
      as [[r Hr]|(_ & Hnum & _)]; [discriminate|].
    apply has_numeric_numericValues in Hnum. by apply Hnum.
  - intros Hctor.
    apply (persistAxisRanges_dom ["GR"; "RHOB"; "constructor"]
             (batch_gaps ++ batch_constructor) ∅ "constructor") in Hctor
      as [[r Hr]|(_ & _ & Hnot)]; [discriminate|].
    apply Hnot. apply elem_of_cons. by left.
Defined.

Lemma persistAxisRange_ordered curve data (axisRanges : gmap string (Qc * Qc)) :
  map_Forall (λ _, range_ordered) axisRanges →
  map_Forall (λ _, range_ordered) (persistAxisRange curve data axisRanges).
Proof.
  intros Hall.
  destruct (persistAxisRange_cases curve data axisRanges)
    as [->|(_ & _ & v & vs & _ & ->)]; [done|].
  apply map_Forall_insert_2; [|done]. unfold range_ordered; simpl.
  eapply Qcle_trans; [apply Math_min_le_acc|apply Math_max_ge_acc].
Qed.

Lemma persistAxisRanges_ordered selectedCurves data
    (axisRanges : gmap string (Qc * Qc)) :
  map_Forall (λ _, range_ordered) axisRanges →
  map_Forall (λ _, range_ordered)
             (persistAxisRanges selectedCurves data axisRanges).
Proof.
  unfold persistAxisRanges. revert axisRanges.
  induction selectedCurves as [|c sel IH]; intros axisRanges Hall; simpl.
  - done.
  - by apply IH, persistAxisRange_ordered.
Qed.

Lemma step_ordered st ev :
  map_Forall (λ _, range_ordered) (App.axisRanges st) →
  map_Forall (λ _, range_ordered) (App.axisRanges (step st ev)).
Proof.
  intros Hall. unfold step. destruct (plotDepsSet ev st).
  - rewrite runPlotEffect_axisRanges, handle_axisRanges.
    case_decide; [done|]. by apply persistAxisRanges_ordered.
  - by rewrite handle_axisRanges.
Qed.

(** X4.  Whatever the user does from the start of the component, every
    cached range has its minimum below or equal to its maximum. *)
Theorem cached_ranges_ordered (evs : list Event) :
  map_Forall (λ _ r, (r.1 ≤ r.2)%Qc) (App.axisRanges (run initial evs)).
Proof.
  change (map_Forall (λ _, range_ordered) (App.axisRanges (run initial evs))).
  assert (map_Forall (λ _, range_ordered) (App.axisRanges initial)) as Hinit
    by apply map_Forall_empty.
  revert Hinit. unfold run. generalize initial.
  induction evs as [|ev evs IH]; intros st Hst; simpl; [done|].
  by apply IH, step_ordered.
Qed.

(** ** The assembled traces as a whole *)

Lemma elem_of_assemble data selectedCurves interpretation t :
  t ∈ assemble data selectedCurves interpretation
  ↔ ∃ i c, selectedCurves !! i = Some c
           ∧ t ∈ curveTraces data interpretation i c.
Proof.
  unfold assemble. rewrite list_elem_of_join. split.
  - intros (l & Ht & Hl). apply elem_of_lookup_imap in Hl as (i & c & -> & Hc).
    eauto.
  - intros (i & c & Hc & Ht). eexists. split; [exact Ht|].
    apply elem_of_lookup_imap. eauto.
Qed.

Lemma elem_of_curveTraces data interpretation i c t :
  t ∈ curveTraces data interpretation i c →
  t = lineTrace data i c
  ∨ t = markerTrace (spikePointsOf (spikeDepthsOf interpretation c) data) i c.
Proof.
  unfold curveTraces. rewrite elem_of_cons. intros [->|Ht]; [by left|].
  case_decide; [|by apply elem_of_nil in Ht].
  apply list_elem_of_singleton in Ht. by right.
Qed.

(** X5.  Every trace handed to Plotly has as many x values as y values,
    whatever the samples and the interpretation contain. *)
Theorem assemble_aligned (data : list Sample.t) (selectedCurves : list string)
    (interpretation : option Interp.t) :
  Forall (λ t, length (Trace.x t) = length (Trace.y t))
         (assemble data selectedCurves interpretation).
Proof.
  apply Forall_forall. intros t (i & c & _ & Ht)%elem_of_assemble.
  apply elem_of_curveTraces in Ht as [->| ->]; simpl;
    by rewrite !length_fmap.
Qed.

Lemma length_join_imap {A B} (f : nat → A → list B) (g : A → nat)
    (l : list A) :
  (∀ i a, length (f i a) = g a) →
  length (mjoin (imap f l)) = sum_list (g <$> l).
Proof.
  revert f. induction l as [|a l IH]; intros f Hf; simpl; [done|].
  rewrite length_app, Hf. f_equal. apply IH. intros i b. apply Hf.
Qed.

Lemma sum_list_indicator {A} (P : A → Prop) `{!∀ a, Decision (P a)}
    (l : list A) :
  sum_list ((λ a, S (if decide (P a) then 1 else 0)) <$> l)
  = length l + length (filter P l).
Proof.
  induction l as [|a l IH]; [done|]. rewrite filter_cons. csimpl.
  rewrite IH. case_decide; simpl; lia.
Qed.

(** X6.  The number of traces is the number of selected curves plus the
    number of selected curves for which the interpretation lists a spike
    depth; so it lies between the size of the selection and twice that. *)
Theorem assemble_length (data : list Sample.t) (selectedCurves : list string)
    (interpretation : option Interp.t) :
  let n := length (assemble data selectedCurves interpretation) in
  n = length selectedCurves
      + length (filter (λ c, spikeDepthsOf interpretation c ≠ [])
                       selectedCurves)
  ∧ length selectedCurves ≤ n
  ∧ n ≤ 2 * length selectedCurves.
Proof.
  intros n.
  assert (n = length selectedCurves
              + length (filter (λ c, spikeDepthsOf interpretation c ≠ [])
                               selectedCurves)) as Hn.
  { unfold n, assemble. rewrite <-sum_list_indicator.
    apply length_join_imap. intros i c. unfold curveTraces.
    by destruct (spikeDepthsOf interpretation c). }
  split; [done|].
  pose proof (length_filter (λ c, spikeDepthsOf interpretation c ≠ [])
                            selectedCurves). lia.
Qed.

(** X7.  Every assembled trace refers to a y-axis that the layout of the
    same selection defines: the trace of the curve at index i carries
    "y" followed by the suffix of the layout key "yaxis..." at index i. *)
Theorem assemble_axes_defined (data : list Sample.t)
    (selectedCurves : list string) (interpretation : option Interp.t)
    (axisRanges : gmap string (Qc * Qc)) (t : Trace.t) :
  t ∈ assemble data selectedCurves interpretation →
  ∃ i c cfg,
    selectedCurves !! i = Some c
    ∧ Trace.yaxis t = Some ("y" +:+ axisSuffix i)
    ∧ yaxes selectedCurves axisRanges !! i
      = Some ("yaxis" +:+ axisSuffix i, cfg).
Proof.
  intros (i & c & Hc & Ht)%elem_of_assemble.
  exists i, c, (axisConfig axisRanges i c). split; [done|].
  rewrite (yaxes_lookup _ _ _ _ Hc). unfold axisName, axisSuffix.
  apply elem_of_curveTraces in Ht as [->| ->]; simpl; unfold yaxisRef;
    by case_decide.
Qed.

Lemma assemble_axes_defined_witness :
  ∃ i c cfg,
    ["GR"; "RHOB"] !! i = Some c
    ∧ Trace.yaxis (lineTrace batch_gaps 1 "RHOB")
      = Some ("y" +:+ axisSuffix i)
    ∧ yaxes ["GR"; "RHOB"] ∅ !! i = Some ("yaxis" +:+ axisSuffix i, cfg).
Proof.
  apply (assemble_axes_defined batch_gaps ["GR"; "RHOB"] None ∅).
  apply elem_of_assemble. exists 1, "RHOB". split; [reflexivity|].
  apply elem_of_cons. by left.
Defined.

Lemma axisName_inj i j : axisName i = axisName j → i = j.
Proof.
  unfold axisName. repeat case_decide; subst; try done.
  - intros [= Hp]. by destruct (pretty_nat_nonempty (j + 1)).
  - intros [= Hp]. by destruct (pretty_nat_nonempty (i + 1)).
  - intros [= Hp]. change (pretty (i + 1) = pretty (j + 1)) in Hp.
    apply pretty_nat_inj in Hp. lia.
Qed.

(** X8.  The layout keys built for a selection are pairwise different,
    so [Object.fromEntries] keeps one y-axis per selected curve. *)
Theorem yaxes_keys_distinct (selectedCurves : list string)
    (axisRanges : gmap string (Qc * Qc)) :
  NoDup (yaxes selectedCurves axisRanges).*1
  ∧ length (yaxes selectedCurves axisRanges).*1 = length selectedCurves.
Proof.
  split; [|by rewrite length_fmap, length_yaxes].
  apply NoDup_alt. intros i j key Hi Hj.
  unfold yaxes in Hi, Hj. rewrite list_lookup_fmap, list_lookup_imap in Hi, Hj.
  destruct (selectedCurves !! i), (selectedCurves !! j); simplify_eq/=.
  by apply axisName_inj.
Qed.

Lemma zip_fmap_same {A B C} (f : A → B) (g : A → C) (l : list A) :
  zip (f <$> l) (g <$> l) = (λ a, (f a, g a)) <$> l.
Proof. induction l as [|a l IH]; [done|]. simpl. by f_equal. Qed.

(** X9.  The points of a marker trace are points of the curve's line
    trace, in the same order: every spike marker sits on the line. *)
Theorem markers_on_line (data : list Sample.t)
    (interpretation : option Interp.t) (i : nat) (c : string) :
  let line := lineTrace data i c in
  let m := markerTrace (spikePointsOf (spikeDepthsOf interpretation c) data)
                       i c in
  zip (Trace.x m) (Trace.y m) `sublist_of` zip (Trace.x line) (Trace.y line).
Proof.
  simpl. rewrite !zip_fmap_same. apply fmap_sublist.
  unfold spikePointsOf. apply sublist_filter.
Qed.

(** X10.  When the interpretation lists spike depths for a curve but no
    sample lies at any of them, the marker trace is still pushed, with
    no points. *)
Theorem markers_without_match (data : list Sample.t)
    (interpretation : option Interp.t) (i : nat) (c : string) :
  spikeDepthsOf interpretation c ≠ [] →
  (∀ d, d ∈ data → Sample.depth d ∉ spikeDepthsOf interpretation c) →
  ∃ m, curveTraces data interpretation i c = [lineTrace data i c; m]
       ∧ Trace.mode m = markers
       ∧ Trace.x m = [] ∧ Trace.y m = [].
Proof.
  intros Hsd Hnone. unfold curveTraces.
  case_decide as Hlen;
    [|destruct (spikeDepthsOf interpretation c); simpl in *; [done|lia]].
  eexists. split; [done|]. split; [done|].
  assert (spikePointsOf (spikeDepthsOf interpretation c) data = []) as ->;
    [|done].
  unfold spikePointsOf. induction data as [|d data IH]; [done|].
  rewrite filter_cons, decide_False by (apply Hnone, elem_of_cons; by left).
  apply IH. intros d' Hd'. apply Hnone, elem_of_cons. by right.
Qed.

Lemma markers_without_match_witness :
  ∃ m, curveTraces spike_samples (Some unmatched_interpretation) 0 "GR"
       = [lineTrace spike_samples 0 "GR"; m]
       ∧ Trace.mode m = markers
       ∧ Trace.x m = [] ∧ Trace.y m = [].
Proof.
  apply markers_without_match.
  - discriminate.
  - intros d Hd. apply (bool_decide_unpack _).
    revert d Hd. apply Forall_forall.
    apply (bool_decide_unpack _). vm_compute. exact I.
Defined.

(** ** The selection over a whole session *)

Lemma handle_selection_bounded st ev :
  selection_bounded (App.selectedCurves st) →
  selection_bounded (App.selectedCurves (handle ev st)).
Proof.
  intros [Hlen Hnd]. destruct ev; simpl; try done.
  - rewrite curvesLoaded_selectedCurves. split.
    + rewrite length_take. lia.
    + destruct (filter _ res); simpl; [apply NoDup_nil_2|].
      rewrite take_0. apply NoDup_singleton.
  - split; [by apply toggle_length|by apply toggle_NoDup].
  - unfold fetchData. by case_decide.
  - unfold runAIInterpretation. by case_decide.
  - unfold handleDeleteWell. by case_decide.
Qed.

(** X11.  From the start of the component, whatever the sequence of
    events, at most three distinct curves are selected; so the chart has
    at most three y-axes and at most six traces. *)
Theorem session_selection_bounded (evs : list Event) :
  let st := run initial evs in
  length (App.selectedCurves st) ≤ 3
  ∧ NoDup (App.selectedCurves st)
  ∧ length (yaxes (App.selectedCurves st) (App.axisRanges st)) ≤ 3
  ∧ length (assemble (App.data st) (App.selectedCurves st)
                     (App.interpretation st)) ≤ 6.
Proof.
  simpl.
  assert (selection_bounded (App.selectedCurves (run initial evs)))
    as [Hlen Hnd].
  { assert (selection_bounded (App.selectedCurves initial)) as Hinit
      by (split; [simpl; lia|apply NoDup_nil_2]).
    revert Hinit. unfold run. generalize initial.
    induction evs as [|ev evs IH]; intros st Hst; simpl; [done|].
    apply IH. rewrite step_selectedCurves. by apply handle_selection_bounded. }
  split; [done|]. split; [done|]. split; [by rewrite length_yaxes|].
  unfold assemble.
  rewrite (length_join_imap _
             (λ c, S (if decide (spikeDepthsOf
                                   (App.interpretation (run initial evs)) c
                                 ≠ []) then 1 else 0))).
  - rewrite sum_list_indicator.
    pose proof (length_filter
      (λ c, spikeDepthsOf (App.interpretation (run initial evs)) c ≠ [])
      (App.selectedCurves (run initial evs))). lia.
  - intros i c. unfold curveTraces.
    by destruct (spikeDepthsOf (App.interpretation (run initial evs)) c).
Qed.

Lemma filter_ne_not_elem (name : string) (l : list string) :
  name ∉ l → filter (λ curve, curve ≠ name) l = l.
Proof.
  induction l as [|c l IH]; intros Hnin; [done|].
  apply not_elem_of_cons in Hnin as [Hne Hnin].
  rewrite filter_cons, decide_True by done. by rewrite IH.
Qed.

(** X12.  Ticking a curve and unticking it again restores the selection.
    Unticking a selected curve and ticking it again does not: the curve
    comes back as the last of the selection, which is therefore a
    reordering of the original one, and the curve moves to the last
    axis. *)
Theorem toggle_twice (name : string) (selectedCurves : list string) :
  length selectedCurves ≤ 3 →
  NoDup selectedCurves →
  (name ∉ selectedCurves → length selectedCurves < 3 →
     toggle name (toggle name selectedCurves) = selectedCurves)
  ∧ (name ∈ selectedCurves →
       toggle name (toggle name selectedCurves)
       = filter (λ curve, curve ≠ name) selectedCurves ++ [name]
       ∧ toggle name (toggle name selectedCurves) ≡ₚ selectedCurves).
Proof.
  intros Hlen Hnd. split.
  - intros Hnew Hroom. rewrite (toggle_add name selectedCurves) by done.
    rewrite toggle_remove by (apply elem_of_app; right; by left).
    rewrite filter_app, filter_ne_not_elem by done.
    rewrite filter_cons, decide_False by (by intros []).
    by rewrite filter_nil, app_nil_r.
  - intros Hin. rewrite (toggle_remove name selectedCurves) by done.
    assert (name ∉ filter (λ curve, curve ≠ name) selectedCurves) as Hgone.
    { rewrite list_elem_of_filter. by intros [[] _]. }
    pose proof (length_filter_ne name selectedCurves Hnd Hin) as Hless.
    rewrite toggle_add by (done || lia). split; [done|].
    apply NoDup_Permutation; [|done|].
    + apply NoDup_app. split; [by apply NoDup_filter|].
      split; [|apply NoDup_singleton].
      intros x Hx ->%list_elem_of_singleton. done.
    + intros x. rewrite elem_of_app, list_elem_of_filter,
        list_elem_of_singleton.
      destruct (decide (x = name)) as [->|Hne].
      * split; [by intros _|by right].
      * split; [by intros [[_ Hx]|Hx]|by left].
Qed.

Lemma toggle_twice_witness :
  toggle "GR" (toggle "GR" ["GR"; "RHOB"]) = ["RHOB"; "GR"]
  ∧ toggle "GR" (toggle "GR" ["GR"; "RHOB"]) ≡ₚ ["GR"; "RHOB"].
Proof.
  assert (length ["GR"; "RHOB"] ≤ 3) as Hlen by (simpl; lia).
  assert (NoDup ["GR"; "RHOB"]) as Hnd
    by (apply (bool_decide_unpack _); vm_compute; exact I).
  destruct (toggle_twice "GR" ["GR"; "RHOB"] Hlen Hnd) as [_ Hback].
  destruct Hback as [Heq Hperm]; [apply elem_of_cons; by left|].
  split; [exact Heq|exact Hperm].
Defined.

(** ** Deleting the selected well, and the interpretation *)

(** X13.  After the selected well is deleted no well is selected and the
    curve list and the samples are empty, but the selection, the
    interpretation and the cached ranges are all kept; loading data or
    asking for an interpretation then does nothing, and the plot effect
    makes no render call, so the chart on screen is not redrawn. *)
Theorem delete_selected_well (st : App.t) :
  let st' := step st (DeleteWell (App.selectedWell st)) in
  App.selectedWell st' = "" ∧ App.curves st' = [] ∧ App.data st' = []
  ∧ App.selectedCurves st' = App.selectedCurves st
  ∧ App.interpretation st' = App.interpretation st
  ∧ App.showAI st' = App.showAI st
  ∧ App.axisRanges st' = App.axisRanges st
  ∧ (∀ res, step st' (DataLoaded res) = st')
  ∧ (∀ res, step st' (Interpreted res) = st')
  ∧ (runPlotEffect st').2 = None.
Proof.
  unfold step; simpl. rewrite bool_decide_eq_true_2 by done.
  unfold handleDeleteWell. rewrite decide_True by done.
  unfold runPlotEffect, plotEffect; simpl.
  repeat split; intros res; unfold fetchData, runAIInterpretation; simpl;
    (rewrite bool_decide_eq_true_2 by (by left)); simpl;
    by rewrite decide_True by (by left).
Qed.

(** X14.  Only a successful interpretation request changes the
    interpretation or shows the interpretation panel: selecting or
    deleting a well, loading curves or samples and changing the
    selection all keep the interpretation that is on screen. *)
Theorem interpretation_kept (st : App.t) (ev : Event) :
  (∀ res, ev ≠ Interpreted res) →
  App.interpretation (step st ev) = App.interpretation st
  ∧ App.showAI (step st ev) = App.showAI st.
Proof.
  intros Hev.
  assert (App.interpretation (handle ev st) = App.interpretation st
          ∧ App.showAI (handle ev st) = App.showAI st) as Hhandle.
  { destruct ev; simpl; try done.
    - unfold curvesLoaded. by destruct (filter _ res).
    - unfold fetchData. by case_decide.
    - by destruct (Hev res).
    - unfold handleDeleteWell. by case_decide. }
  unfold step. destruct (plotDepsSet ev st); [|done].
  unfold runPlotEffect. by destruct plotEffect.
Qed.

Lemma interpretation_kept_witness :
  let st := step after_first_batch (Interpreted spike_interpretation) in
  App.interpretation (step st (SelectWell "W2")) = Some spike_interpretation
  ∧ App.showAI (step st (SelectWell "W2")) = true.
Proof.
  apply (interpretation_kept
           (step after_first_batch (Interpreted spike_interpretation))
           (SelectWell "W2")).
  discriminate.
Defined.

(** X15.  With a well and at least one curve selected, a successful
    interpretation shows the panel, and the cleaned overlay is rendered
    exactly when the result has [cleanedCurves] with at least one entry
    that has both fields; with no well or no curve selected the request
    is not made and nothing changes. *)
Theorem interpreted_overlay (st : App.t) (res : Interp.t) :
  (App.selectedWell st ≠ "" → App.selectedCurves st ≠ [] →
     let st' := step st (Interpreted res) in
     App.interpretation st' = Some res
     ∧ App.showAI st' = true
     ∧ runCleanedEffect st'
       = match Interp.cleanedCurves res with
         | None => None
         | Some cc =>
             match assembleCleaned cc with
             | [] => None
             | t :: ts =>
                 Some {| Chart.traces := t :: ts;
                         Chart.title := "AI Cleaned Curve (Outliers Removed)";
                         Chart.axes := [("yaxis", cleanedAxis)];
                         Chart.height := 500 |}
             end
         end)
  ∧ (App.selectedWell st = "" ∨ App.selectedCurves st = [] →
       step st (Interpreted res) = st).
Proof.
  split.
  - intros Hwell Hsel. unfold step; simpl.
    assert (¬ (App.selectedWell st = ""
               ∨ length (App.selectedCurves st) = 0)) as Hguard.
    { intros [?|Hlen]; [done|]. by destruct (App.selectedCurves st). }
    rewrite bool_decide_eq_false_2 by done. simpl.
    unfold runAIInterpretation. rewrite decide_False by done.
    unfold runPlotEffect. destruct plotEffect as [ranges chart] eqn:Hplot.
    simpl. split; [done|]. split; [done|].
    unfold runCleanedEffect, cleanedPlotMounted, cleanedEffect; simpl.
    destruct (Interp.cleanedCurves res) as [cc|]; simpl; [|done].
    by destruct (assembleCleaned cc).
  - intros Hguard. unfold step; simpl.
    assert (App.selectedWell st = ""
            ∨ length (App.selectedCurves st) = 0) as Hguard'.
    { destruct Hguard as [Hw|Hs]; [by left|right; by rewrite Hs]. }
    rewrite bool_decide_eq_true_2 by done. simpl.
    unfold runAIInterpretation. by rewrite decide_True.
Qed.

Lemma interpreted_overlay_witness :
  let st' := step after_first_batch (Interpreted empty_cleaned) in
  App.showAI st' = true
  ∧ ∃ chart, runCleanedEffect st' = Some chart
             ∧ length (Chart.traces chart) = 1.
Proof.
  destruct (interpreted_overlay after_first_batch empty_cleaned) as [Hok _].
  destruct Hok as (_ & Hshow & Hrender); [discriminate|discriminate|].
  split; [exact Hshow|]. eexists. split; [exact Hrender|reflexivity].
Defined.

(** ** Chat *)

Lemma trimStart_nil (s : list N) :
  trimStart s = [] ↔ Forall (λ c, isWhiteSpace c = true) s.
Proof.
  induction s as [|c s IH]; simpl.
  - split; [by constructor|done].
  - destruct (isWhiteSpace c) eqn:Hc.
    + rewrite IH. split; [by constructor|]. by inversion 1.
    + split; [done|]. inversion 1; congruence.
Qed.

Lemma trimStart_head (s : list N) :
  trimStart s = []
  ∨ ∃ c s', trimStart s = c :: s' ∧ isWhiteSpace c = false.
Proof.
  induction s as [|c s IH]; simpl; [by left|].
  destruct (isWhiteSpace c) eqn:Hc; [done|]. right. eauto.
Qed.

(** The trimmed text is empty exactly when the text is all white space. *)
Lemma trim_nil (s : list N) :
  trim s = [] ↔ Forall (λ c, isWhiteSpace c = true) s.
Proof.
  unfold trim. rewrite <-trimStart_nil. split.
  - intros Hrev.
    assert (trimStart (reverse (trimStart s)) = []) as Hnil.
    { by rewrite <-(reverse_involutive (trimStart _)), Hrev. }
    apply trimStart_nil in Hnil. apply Forall_reverse in Hnil.
    rewrite reverse_involutive in Hnil.
    destruct (trimStart_head s) as [?|(c & s' & Hs & Hc)]; [done|].
    rewrite Hs in Hnil. inversion Hnil; congruence.
  - by intros ->.
Qed.

Lemma chatStep_prefix (c : Chat.t) (ev : ChatEvent) :
  Chat.chatMessages c `prefix_of` Chat.chatMessages (chatStep c ev).
Proof.
  destruct ev; simpl.
  - done.
  - unfold sendChatRequest. case_decide; simpl; [done|].
    by apply prefix_app_r.
  - by apply prefix_app_r.
Qed.

(** X16.  The chat history only grows: whatever is typed, sent or
    answered, in any order, the messages shown before are still there,
    in the same order, at the head of the history. *)
Theorem chat_history_append_only (c : Chat.t) (evs : list ChatEvent) :
  Chat.chatMessages c `prefix_of` Chat.chatMessages (foldl chatStep c evs).
Proof.
  revert c. induction evs as [|ev evs IH]; intros c; simpl; [done|].
  etrans; [apply (chatStep_prefix c ev)|apply IH].
Qed.

Lemma replyText_nonempty reply : replyText reply ≠ [].
Proof. by destruct reply as [[|c s]|]. Qed.

(** X17.  With a well selected and an input that is not all white
    space, one exchange appends exactly two messages: the input as
    typed, not trimmed, from the user, then a non-empty text from the
    bot; the input is cleared and the loading flag is off.  The bot's
    text is the reply if it is a non-empty string, "No response" if the
    reply is missing or empty, and a fixed text if the request fails. *)
Theorem chat_exchange (selectedWell : string)
    (outcome : Outcome (option (list N))) (c : Chat.t) :
  selectedWell ≠ "" →
  ¬ Forall (λ ch, isWhiteSpace ch = true) (Chat.chatInput c) →
  ∃ answer,
    sendChatMessage selectedWell outcome c
    = {| Chat.chatMessages :=
           Chat.chatMessages c
           ++ [{| ChatMessage.sender := user;
                  ChatMessage.text := Chat.chatInput c |};
               {| ChatMessage.sender := bot; ChatMessage.text := answer |}];
         Chat.chatInput := [];
         Chat.chatLoading := false |}
    ∧ answer ≠ []
    ∧ (∀ ch s, outcome = Resolved (Some (ch :: s)) → answer = ch :: s)
    ∧ (outcome = Resolved None ∨ outcome = Resolved (Some []) →
         answer = lit "No response")
    ∧ (outcome = Rejected → answer = lit "Chat processing failed.").
Proof.
  intros Hwell Hinput. rewrite <-trim_nil in Hinput.
  unfold sendChatMessage, sendChatRequest.
  rewrite decide_False by (by intros [|]).
  unfold sendChatResponse; simpl. rewrite <-app_assoc. simpl.
  eexists. split; [reflexivity|].
  split; [destruct outcome; [apply replyText_nonempty|done]|].
  split; [by intros ch s ->|]. split; [by intros [-> | ->]|by intros ->].
Qed.

Lemma chat_exchange_witness :
  ∃ answer,
    sendChatMessage "W1" (Resolved (Some [])) typed_hello
    = {| Chat.chatMessages :=
           [{| ChatMessage.sender := user; ChatMessage.text := lit " hello " |};
            {| ChatMessage.sender := bot; ChatMessage.text := answer |}];
         Chat.chatInput := [];
         Chat.chatLoading := false |}
    ∧ answer = lit "No response".
Proof.
  destruct (chat_exchange "W1" (Resolved (Some [])) typed_hello)
    as (answer & Hsend & _ & _ & Hmissing & _).
  - discriminate.
  - intros Hall. apply Forall_cons_1 in Hall as [_ Hall].
    apply Forall_cons_1 in Hall as [Hh _]. vm_compute in Hh. discriminate.
  - exists answer. split; [exact Hsend|]. apply Hmissing. by right.
Defined.

(** X18.  With no well selected, or an input that is empty or all white
    space, sending does nothing at all: no message is appended, nothing
    is sent, and the input is left as typed. *)
Theorem chat_blank_ignored (selectedWell : string)
    (outcome : Outcome (option (list N))) (c : Chat.t) :
  selectedWell = "" ∨ Forall (λ ch, isWhiteSpace ch = true) (Chat.chatInput c) →
  sendChatRequest selectedWell c = (c, None)
  ∧ sendChatMessage selectedWell outcome c = c.
Proof.
  intros Hguard. rewrite <-trim_nil in Hguard.
  unfold sendChatMessage, sendChatRequest.
  by rewrite decide_True by (destruct Hguard; [by right|by left]).
Qed.

Lemma chat_blank_ignored_witness :
  sendChatRequest "W1" typed_blank = (typed_blank, None)
  ∧ sendChatMessage "W1" Rejected typed_blank = typed_blank.
Proof.
  apply chat_blank_ignored. right.
  apply (bool_decide_unpack _). vm_compute. exact I.
Defined.

Lemma chatStep_messages_ok (c : Chat.t) (ev : ChatEvent) :
  Forall message_ok (Chat.chatMessages c) →
  Forall message_ok (Chat.chatMessages (chatStep c ev)).
Proof.
  intros Hall. destruct ev as [text|selectedWell|outcome]; simpl.
  - done.
  - unfold sendChatRequest. case_decide as Hguard; simpl; [done|].
    apply Forall_app. split; [done|]. apply Forall_singleton.
    unfold message_ok; simpl. intros Hnil. apply Hguard. by left.
  - apply Forall_app. split; [done|]. apply Forall_singleton.
    unfold message_ok; simpl.
    destruct outcome; [apply replyText_nonempty|done].
Qed.

(** X19.  In every chat history the component can reach, no message of
    the user is blank and no message of the bot is empty. *)
Theorem chat_messages_never_blank (evs : list ChatEvent) :
  Forall (λ m, match ChatMessage.sender m with
               | user => trim (ChatMessage.text m) ≠ []
               | bot => ChatMessage.text m ≠ []
               end)
         (Chat.chatMessages (foldl chatStep chatInitial evs)).
Proof.
  change (Forall message_ok
            (Chat.chatMessages (foldl chatStep chatInitial evs))).
  assert (Forall message_ok (Chat.chatMessages chatInitial)) as Hinit
    by constructor.
  revert Hinit. generalize chatInitial.
  induction evs as [|ev evs IH]; intros c Hc; simpl; [done|].
  by apply IH, chatStep_messages_ok.
Qed.

(** ** Depth bounds, failed requests, upload and deletion *)

Lemma orZero_number (n : Qc) : orZero (JNum n) = JNum n.
Proof.
  unfold orZero; simpl. case_bool_decide as Hn; simpl; [|done]. by rewrite Hn.
Qed.

Lemma find_first {A} (f : A → bool) (l : list A) (k : nat) (x : A) :
  l !! k = Some x → f x = true →
  (∀ j y, j < k → l !! j = Some y → f y = false) →
  find f l = Some x.
Proof.
  revert k. induction l as [|a l IH]; intros k Hk Hx Hbefore; [done|].
  destruct k as [|k]; simpl in *.
  - injection Hk as ->. by rewrite Hx.
  - rewrite (Hbefore 0 a) by (done || lia).
    apply (IH k); [done..|]. intros j y Hj Hy.
    apply (Hbefore (S j) y); [lia|done].
Qed.

(** X20.  Selecting a well sets the depth bounds from the first well of
    the list with that id, also when later wells have the same id: a
    numeric bound is taken as it is (zero included) and a missing one
    becomes 0.  With no well selected, or a well that is not in the
    list, the bounds stay as they are. *)
Theorem depthBounds_selected (wells : list Well.t) (selectedWell : string)
    (bounds : jsval * jsval) :
  (selectedWell = "" ∨ (∀ w, w ∈ wells → Well.id w ≠ selectedWell) →
     depthBounds wells selectedWell bounds = bounds)
  ∧ (selectedWell ≠ "" →
     ∀ k well,
       wells !! k = Some well → Well.id well = selectedWell →
       (∀ j w, j < k → wells !! j = Some w → Well.id w ≠ selectedWell) →
       depthBounds wells selectedWell bounds
       = (orZero (Well.start_depth well), orZero (Well.stop_depth well)))
  ∧ (∀ n, orZero (JNum n) = JNum n)
  ∧ orZero JUndefined = JNum (Qc_of_Z 0)
  ∧ orZero JNull = JNum (Qc_of_Z 0).
Proof.
  split; [|split; [|split; [apply orZero_number|done]]].
  - intros Hnone. unfold depthBounds. case_decide; [done|].
    destruct Hnone as [?|Hnone]; [done|].
    destruct (find _ wells) as [well|] eqn:Hfind; [|done].
    apply find_some in Hfind as [Hin Hid].
    apply bool_decide_eq_true in Hid.
    destruct (Hnone well); [by apply list_elem_of_In|done].
  - intros Hsel k well Hk Hid Hbefore. unfold depthBounds.
    rewrite decide_False by done.
    rewrite (find_first _ wells k well); [done|done|..].
    + by apply bool_decide_eq_true.
    + intros j w Hj Hw. apply bool_decide_eq_false. by eapply Hbefore.
Qed.

Lemma depthBounds_selected_witness :
  depthBounds duplicate_wells "" (JNum (Qc_of_Z 5), JNum (Qc_of_Z 9))
  = (JNum (Qc_of_Z 5), JNum (Qc_of_Z 9))
  ∧ depthBounds duplicate_wells "W1" (JNum (Qc_of_Z 5), JNum (Qc_of_Z 9))
    = (JNum (Qc_of_Z 10), JNum (Qc_of_Z 20)).
Proof.
  split.
  - apply (depthBounds_selected duplicate_wells ""). by left.
  - destruct (depthBounds_selected duplicate_wells "W1"
                (JNum (Qc_of_Z 5), JNum (Qc_of_Z 9)))
      as (_ & Hfirst & Hnumber & _).
    rewrite (Hfirst ltac:(discriminate) 1
               (Well.mk "W1" (JNum (Qc_of_Z 10)) (JNum (Qc_of_Z 20)))
               eq_refl eq_refl).
    + simpl. by rewrite !Hnumber.
    + intros j w Hj Hw. assert (j = 0) as -> by lia.
      injection Hw as <-. discriminate.
Defined.

(** X21.  A data or interpretation request that fails leaves the whole
    state as it was, reports one alert, and leaves the loading flag off;
    a request that succeeds gives the state of the handler modelled
    above without an alert; when no well or no curve is selected no
    request is made, whatever its outcome would be. *)
Theorem failed_request_keeps_state (st : App.t) (loading : bool) :
  (App.selectedWell st ≠ "" → App.selectedCurves st ≠ [] →
     fetchDataWith Rejected st loading
     = (st, false, Some "Failed to load data or interpretation")
     ∧ runAIInterpretationWith Rejected st
       = (st, Some "AI interpretation failed")
     ∧ (∀ res, fetchDataWith (Resolved res) st loading
               = (fetchData res st, false, None))
     ∧ (∀ res, runAIInterpretationWith (Resolved res) st
               = (runAIInterpretation res st, None)))
  ∧ (App.selectedWell st = "" ∨ App.selectedCurves st = [] →
       (∀ outcome, fetchDataWith outcome st loading = (st, loading, None))
       ∧ (∀ outcome, runAIInterpretationWith outcome st = (st, None))).
Proof.
  split.
  - intros Hwell Hsel.
    assert (¬ (App.selectedWell st = ""
               ∨ length (App.selectedCurves st) = 0)) as Hguard.
    { intros [?|Hlen]; [done|]. by destruct (App.selectedCurves st). }
    unfold fetchDataWith, runAIInterpretationWith, fetchData,
      runAIInterpretation.
    rewrite !decide_False by done. do 2 (split; [done|]).
    split; intros res; by destruct (decide _).
  - intros Hguard.
    assert (App.selectedWell st = ""
            ∨ length (App.selectedCurves st) = 0) as Hguard'.
    { destruct Hguard as [Hw|Hs]; [by left|right; by rewrite Hs]. }
    unfold fetchDataWith, runAIInterpretationWith.
    split; intros outcome; by rewrite decide_True.
Qed.

Lemma failed_request_keeps_state_witness :
  fetchDataWith Rejected after_first_batch true
  = (after_first_batch, false, Some "Failed to load data or interpretation")
  ∧ ∀ outcome, fetchDataWith outcome initial true = (initial, true, None).
Proof.
  destruct (failed_request_keeps_state after_first_batch true) as [Hfail _].
  destruct (failed_request_keeps_state initial true) as [_ Hskip].
  split.
  - apply Hfail; discriminate.
  - apply Hskip. by left.
Defined.

(** X22.  An upload without a chosen file does nothing.  With a file,
    the uploading flag is off at the end of every outcome; the file
    stays chosen only when the upload request itself fails, so that a
    further click retries it, and in the other outcomes a further click
    does nothing; the well list changes only when the reload succeeds,
    and a failed reload reports "Upload failed" although the file was
    uploaded. *)
Theorem upload_outcomes (first second : ReloadOutcome) (u : Upload.t) :
  (Upload.selectedFile u = None → handleUpload first u = (u, None))
  ∧ (is_Some (Upload.selectedFile u) →
       Upload.uploading (handleUpload first u).1 = false
       ∧ (first = RequestRejected →
            Upload.selectedFile (handleUpload first u).1
            = Upload.selectedFile u)
       ∧ (first ≠ RequestRejected →
            handleUpload second (handleUpload first u).1
            = ((handleUpload first u).1, None))
       ∧ (Upload.wells (handleUpload first u).1 ≠ Upload.wells u →
            ∃ wells, first = Reloaded wells)
       ∧ (first = ReloadRejected →
            (handleUpload first u).2 = Some "Upload failed"
            ∧ Upload.selectedFile (handleUpload first u).1 = None)).
Proof.
  split.
  - intros Hnone. unfold handleUpload. by rewrite Hnone.
  - intros [file Hfile]. unfold handleUpload. rewrite Hfile.
    destruct first; simpl; repeat split; try done.
    intros _. by eexists.
Qed.

Lemma upload_outcomes_witness :
  Upload.uploading (handleUpload ReloadRejected file_chosen).1 = false
  ∧ handleUpload (Reloaded two_wells)
                 (handleUpload ReloadRejected file_chosen).1
    = ((handleUpload ReloadRejected file_chosen).1, None).
Proof.
  destruct (upload_outcomes ReloadRejected (Reloaded two_wells) file_chosen)
    as [_ Hfile].
  destruct Hfile as (Hflag & _ & Hagain & _); [by eexists|].
  split; [exact Hflag|]. apply Hagain. discriminate.
Defined.

(** X23.  A deletion that is not confirmed, or whose request fails,
    changes neither the state nor the well list.  Once the request has
    succeeded the state is that of the deletion handler whether or not
    the reload succeeds; the well list changes only when it does, and a
    failed reload reports "Delete failed" although the well was
    deleted. *)
Theorem delete_outcomes (outcome : ReloadOutcome) (wellId : string)
    (st : App.t) (wells : list Well.t) :
  handleDeleteWellWith false outcome wellId st wells = (st, wells, None)
  ∧ handleDeleteWellWith true RequestRejected wellId st wells
    = (st, wells, Some "Delete failed")
  ∧ (outcome ≠ RequestRejected →
       (handleDeleteWellWith true outcome wellId st wells).1.1
       = step st (DeleteWell wellId))
  ∧ ((handleDeleteWellWith true outcome wellId st wells).1.2 ≠ wells →
       ∃ wells', outcome = Reloaded wells')
  ∧ handleDeleteWellWith true ReloadRejected wellId st wells
    = (step st (DeleteWell wellId), wells, Some "Delete failed").
Proof.
  assert (step st (DeleteWell wellId) = handleDeleteWell wellId st) as Hstep.
  { unfold step; simpl. case_bool_decide as Hsel; [|done].
    unfold handleDeleteWell. rewrite decide_True by done.
    unfold runPlotEffect, plotEffect. simpl. by destruct st. }
  rewrite Hstep. split; [done|]. split; [done|].
  split; [by destruct outcome|]. split; [|done].
  destruct outcome; simpl; try done. intros _. by eexists.
Qed.

Lemma delete_outcomes_witness :
  (handleDeleteWellWith true (Reloaded []) "W1" after_first_batch two_wells).1.1
  = step after_first_batch (DeleteWell "W1").
Proof.
  destruct (delete_outcomes (Reloaded []) "W1" after_first_batch two_wells)
    as (_ & _ & Hstate & _).
  apply Hstate. discriminate.
Defined.

(** ** The cache miss for ordinary curve names *)

(** X24.  Cache miss: for a curve without an entry in the cache whose
    name is not that of a member of [Object.prototype], a batch with at
    least one number for the curve caches (minimum, maximum) of exactly
    those numbers; a batch with none caches nothing, and a later batch
    with numbers then succeeds.  The loop over a selection stores for each
    selected curve what the computation for that curve stores. *)
Theorem axis_range_cache_miss (c : string) (first later : list Sample.t)
    (axisRanges : gmap string (Qc * Qc)) :
  axisRanges !! c = None →
  c ∉ objectPrototypeMembers →
  (has_numeric c first →
     ∃ r, persistAxisRange c first axisRanges !! c = Some r
          ∧ is_range_of c first r)
  ∧ (¬ has_numeric c first →
       persistAxisRange c first axisRanges = axisRanges
       ∧ (has_numeric c later →
            ∃ r, persistAxisRange c later
                   (persistAxisRange c first axisRanges) !! c = Some r
                 ∧ is_range_of c later r))
  ∧ (∀ selection, c ∈ selection →
       persistAxisRanges selection first axisRanges !! c
       = persistAxisRange c first axisRanges !! c).
Proof.
  intros Hmiss Hname.
  assert (inherited c = false) as Hname' by by apply bool_decide_eq_false.
  split; [|split].
  - by apply persistAxisRange_miss.
  - intros Hnone. rewrite persistAxisRange_no_numeric by done.
    split; [done|]. by apply persistAxisRange_miss.
  - intros selection Hin. by apply persistAxisRanges_selected.
Qed.

Lemma axis_range_cache_miss_witness :
  persistAxisRange "GR" batch_gaps ∅ = ∅
  ∧ ∃ r, persistAxisRange "GR" batch_5_15 (persistAxisRange "GR" batch_gaps ∅)
           !! "GR" = Some r
         ∧ is_range_of "GR" batch_5_15 r.
Proof.
  assert (¬ has_numeric "GR" batch_gaps) as Hnone.
  { rewrite has_numeric_numericValues. intros Hne. by apply Hne. }
  assert (has_numeric "GR" batch_5_15) as Hsome.
  { rewrite has_numeric_numericValues. discriminate. }
  assert ("GR" ∉ objectPrototypeMembers) as Hname.
  { intros Hin. apply (bool_decide_pack _) in Hin. vm_compute in Hin.
    exact Hin. }
  destruct (axis_range_cache_miss "GR" batch_gaps batch_5_15 ∅
              (lookup_empty _) Hname)
    as (_ & Hretry & _).
  destruct (Hretry Hnone) as [Hsame Hlater].
  split; [exact Hsame|exact (Hlater Hsome)].
Defined.
